(** * Framebuffer rendering pipeline of the ZCU104 figure scripts

    A shallow embedding of the four display scripts ([botafogo.py],
    [nhd.py], [HousePepperCman.py], [animate-single-image.py]): the
    variable screen descriptor, the numpy pixel-format conversion, the PIL
    canvas operations used by the layouts, and the write of the frame to
    the framebuffer device. *)

From Stdlib Require Import String ZArith List Lia Bool.
Import ListNotations.
Local Open Scope Z_scope.

(** ** Python values that fail: exceptions and results *)

Inductive exn : Type :=
| IndexError
| ZeroDivisionError
| OverflowError
| ValueError (msg : string)
| OSError (errno : Z).

Inductive result (A : Type) : Type :=
| Ok (a : A)
| Raise (e : exn).
Arguments Ok {A} a.
Arguments Raise {A} e.

Definition bind {A B} (c : result A) (k : A -> result B) : result B :=
  match c with
  | Ok a => k a
  | Raise e => Raise e
  end.

Notation "x <- c ;; k" := (bind c (fun x => k))
  (at level 61, c at next level, right associativity).

Fixpoint mapM {A B} (f : A -> result B) (l : list A) : result (list B) :=
  match l with
  | [] => Ok []
  | a :: l' => b <- f a ;; bs <- mapM f l' ;; Ok (b :: bs)
  end.

(** ** Python floats

    A finite binary64 value is kept as an integer mantissa and a binary
    exponent; an operation is the exact operation followed by rounding to
    the nearest value with 53 bits (ties to even, subnormals below
    2^-1022).  NaN and the infinities are left out: what is computed here
    stays far inside the range, except the quotient of two integers, whose
    overflow is reported (see [int_truediv]). *)

Module Double.

(** The value [mant * 2 ^ expo]. *)
Record float : Type := { mant : Z; expo : Z }.

(** [2 ^ k] for a non-negative [k], and 1 below. *)
Definition pow2 (k : Z) : Z := 2 ^ Z.max 0 k.

(** The value of a float as a fraction [num / den], [den] a power of 2. *)
Definition num (x : float) : Z := mant x * pow2 (expo x).

Definition den (x : float) : Z := pow2 (- expo x).

(** [2 ^ k * b <= a] *)
Definition ge_pow2 (a b k : Z) : bool := b * pow2 k <=? a * pow2 (- k).

(** The integer nearest to [n / d], ties to the even one, for [0 < d]. *)
Definition round_half_even (n d : Z) : Z :=
  let q := n / d in
  let r := n mod d in
  if 2 * r <? d then q
  else if d <? 2 * r then q + 1
  else if Z.even q then q else q + 1.

(** The binary exponent of [a / b]: the [k] with
    [2 ^ k <= a / b < 2 ^ (k + 1)], for positive [a] and [b]. *)
Definition exponent (a b : Z) : Z :=
  let k0 := Z.log2 a - Z.log2 b in
  if ge_pow2 a b k0 then k0 else k0 - 1.

(** The double nearest to [a / b], for positive [a] and [b]: 53 bits from
    the leading one, or the multiples of 2^-1074 for a subnormal. *)
Definition round_pos (a b : Z) : float :=
  let e := Z.max (exponent a b - 52) (-1074) in
  {| mant := round_half_even (a * pow2 (- e)) (b * pow2 e); expo := e |}.

(** The double nearest to [a / b], for [b <> 0]. *)
Definition round_ratio (a b : Z) : float :=
  let '(a, b) := if b <? 0 then (- a, - b) else (a, b) in
  if a =? 0 then {| mant := 0; expo := 0 |}
  else if a <? 0 then
    let x := round_pos (- a) b in {| mant := - mant x; expo := expo x |}
  else round_pos a b.

Definition zero : float := {| mant := 0; expo := 0 |}.

Definition one : float := {| mant := 1; expo := 0 |}.

(** [float(z)] *)
Definition of_int (z : Z) : float := round_ratio z 1.

(** [x * y] *)
Definition mul (x y : float) : float :=
  round_ratio (num x * num y) (den x * den y).

(** [x + y] *)
Definition add (x y : float) : float :=
  round_ratio (num x * den y + num y * den x) (den x * den y).

(** [x - y] *)
Definition sub (x y : float) : float :=
  round_ratio (num x * den y - num y * den x) (den x * den y).

(** [x / y], for [y] other than zero. *)
Definition div (x y : float) : float :=
  round_ratio (num x * den y) (den x * num y).

(** [int(x)]: truncation toward zero. *)
Definition to_int (x : float) : Z := Z.quot (num x) (den x).

(** The value is beyond the largest double. *)
Definition overflows (x : float) : bool := 2 ^ 1024 <=? Z.abs (num x).

(** [x] is exactly [n / 2 ^ j]. *)
Definition exactly (x : float) (n j : Z) : Prop := num x * 2 ^ j = n * den x.

End Double.

(** [int(a / b)] on Python integers: the quotient is rounded once to the
    nearest double, which is then truncated toward zero.  Where the quotient
    is too large for a double the division raises OverflowError. *)
Definition int_truediv (a b : Z) : result Z :=
  if b =? 0 then Raise ZeroDivisionError
  else if Double.overflows (Double.round_ratio a b) then Raise OverflowError
  else Ok (Double.to_int (Double.round_ratio a b)).

(** ** The variable screen descriptor (FBIOGET_VSCREENINFO) *)

(** A [ctypes.c_uint32 * 3] array. *)
Definition uint32x3 : Type := (Z * Z * Z)%type.

(** Indexing of a three-element ctypes array; an index past 2 raises
    IndexError in ctypes, the scripts only ever read index 2. *)
Definition getitem (a : uint32x3) (i : nat) : Z :=
  match a, i with
  | (a0, _, _), 0%nat => a0
  | (_, a1, _), 1%nat => a1
  | (_, _, a2), 2%nat => a2
  | _, _ => 0
  end.

Record VarScreenInfo : Type := {
  xres : Z;
  yres : Z;
  xres_virtual : Z;
  yres_virtual : Z;
  xoffset : Z;
  yoffset : Z;
  bits_per_pixel : Z;
  grayscale : Z;
  red : uint32x3;
  green : uint32x3;
  blue : uint32x3;
  transp : uint32x3
}.

(** The ioctl fills each channel triple with the kernel's bitfield
    descriptor, whose three words are, in this order, the bit offset of the
    channel in the pixel word, its bit length and the most-significant-bit
    flag. *)
Definition bit_offset (c : uint32x3) : Z := getitem c 0.
Definition bit_length (c : uint32x3) : Z := getitem c 1.
Definition msb_right (c : uint32x3) : Z := getitem c 2.

(** ** numpy arrays *)

(** An RGB pixel of a PIL image in mode 'RGB'. *)
Definition rgb : Type := (Z * Z * Z)%type.

(** A raster as rows of pixels, row-major, top-left origin. *)
Definition raster : Type := list (list rgb).

Module Np.

(** Shape (H, W, C), dtype uint8. *)
Definition array3 : Type := list (list (list Z)).
(** Shape (H, W). *)
Definition array2 : Type := list (list Z).

(** The arrays the scripts hold in [image_array]: a uint8 array of
    shape (H, W, C) or, after the RGB565 conversion, a uint16 array of
    shape (H, W). *)
Inductive ndarray : Type :=
| U8 (a : array3)
| U16 (a : array2).

(** [np.array(image)] for an RGB image. *)
Definition array (im : raster) : array3 :=
  map (map (fun p : rgb => let '(r, g, b) := p in [r; g; b])) im.

(** [a[:, :, ::-1]] *)
Definition rev_axis2 (a : array3) : array3 := map (map (@rev Z)) a.

(** [np.insert(a, i, v, axis=2)]: [v] is inserted before index [i] of
    every innermost vector; an index past the end raises IndexError. *)
Definition insert1 (i : nat) (v : Z) (l : list Z) : result (list Z) :=
  if (i <=? length l)%nat then Ok (firstn i l ++ v :: skipn i l)
  else Raise IndexError.

Definition insert_axis2 (a : array3) (i : nat) (v : Z) : result array3 :=
  mapM (mapM (insert1 i v)) a.

(** [a[:, :, k]] *)
Definition item (k : nat) (l : list Z) : result Z :=
  match nth_error l k with
  | Some v => Ok v
  | None => Raise IndexError
  end.

Definition channel (a : array3) (k : nat) : result array2 :=
  mapM (mapM (item k)) a.

(** Elementwise operations. *)
Definition map2d (f : Z -> Z) (a : array2) : array2 := map (map f) a.

Fixpoint zip_with {A} (f : A -> A -> A) (l1 l2 : list A) : list A :=
  match l1, l2 with
  | x :: l1', y :: l2' => f x y :: zip_with f l1' l2'
  | _, _ => []
  end.

(** [a >> k] on uint8: the result stays uint8. *)
Definition rshift (a : array2) (k : Z) : array2 :=
  map2d (fun v => Z.shiftr v k) a.

(** [a.astype(np.uint16)] *)
Definition astype_uint16 (a : array2) : array2 :=
  map2d (fun v => v mod 2 ^ 16) a.

(** [a << k] on uint16: bits shifted past bit 15 are lost. *)
Definition lshift16 (a : array2) (k : Z) : array2 :=
  map2d (fun v => Z.shiftl v k mod 2 ^ 16) a.

(** [a | b] *)
Definition bitor (a b : array2) : array2 := zip_with (zip_with Z.lor) a b.

(** The two bytes of a uint16 in memory; the board and the hosts the
    scripts run on are little-endian. *)
Definition uint16_bytes (v : Z) : list Z := [v mod 256; (v / 256) mod 256].

(** [a.flatten().tobytes()] *)
Definition flatten_tobytes (a : ndarray) : list Z :=
  match a with
  | U8 a => concat (concat a)
  | U16 a => flat_map uint16_bytes (concat a)
  end.

End Np.

(** ** The pixel encoder

    The block shared by the four scripts between [np.array(...)] and the
    write to the device. *)

Definition convert (var_info : VarScreenInfo) (image_array : Np.array3)
  : result Np.ndarray :=
  if bits_per_pixel var_info =? 32 then
    let image_array :=
      if getitem (blue var_info) 2 =? 0 then Np.rev_axis2 image_array
      else image_array in
    image_array <- Np.insert_axis2 image_array 3 255 ;;
    Ok (Np.U8 image_array)
  else if bits_per_pixel var_info =? 16 then
    c0 <- Np.channel image_array 0 ;;
    c1 <- Np.channel image_array 1 ;;
    c2 <- Np.channel image_array 2 ;;
    let r := Np.lshift16 (Np.astype_uint16 (Np.rshift c0 3)) 11 in
    let g := Np.lshift16 (Np.astype_uint16 (Np.rshift c1 2)) 5 in
    let b := Np.astype_uint16 (Np.rshift c2 3) in
    Ok (Np.U16 (Np.bitor (Np.bitor r g) b))
  else
    Ok (Np.U8 image_array).

Definition encode (var_info : VarScreenInfo) (frame : raster)
  : result (list Z) :=
  a <- convert var_info (Np.array frame) ;;
  Ok (Np.flatten_tobytes a).

(** Shape and value range of a frame. *)
Definition has_shape (frame : raster) (w h : nat) : Prop :=
  length frame = h /\ Forall (fun row => length row = w) frame.

Definition is_byte (v : Z) : Prop := 0 <= v < 256.

Definition rgb_bytes (p : rgb) : Prop :=
  let '(r, g, b) := p in is_byte r /\ is_byte g /\ is_byte b.

Definition frame_bytes (frame : raster) : Prop :=
  Forall (Forall rgb_bytes) frame.

(** The pixels of a frame in row-major order. *)
Definition pixels (frame : raster) : list rgb := concat frame.

(** ** PIL images *)

Module PIL.

(** An image in mode 'RGB': its size and the pixel at each coordinate,
    origin at the top left.  Images are kept in this mode throughout, so
    [convert('RGB')] has nothing to do. *)
Record Image : Type := {
  width : Z;
  height : Z;
  getpixel : Z -> Z -> rgb
}.

Definition black : rgb := (0, 0, 0).

(** The colour [Image.new] uses when none is given: 0, which is black. *)
Definition default_color : rgb := (0, 0, 0).

(** [Image.new('RGB', size, color)] *)
Definition new (size : Z * Z) (color : rgb) : Image :=
  {| width := fst size; height := snd size; getpixel := fun _ _ => color |}.

(** A pixel of the destination lies in the pasted box. *)
Definition covers (src : Image) (box : Z * Z) (x y : Z) : bool :=
  (fst box <=? x) && (x <? fst box + width src) &&
  (snd box <=? y) && (y <? snd box + height src).

(** [im.paste(src, box)]: the pixels of [src] replace those of [im] in the
    box whose upper left corner is [box]; what falls outside [im] is
    clipped.  The image returned is [im] after the call. *)
Definition paste (im src : Image) (box : Z * Z) : Image :=
  {| width := width im;
     height := height im;
     getpixel := fun x y =>
       if covers src box x y then getpixel src (x - fst box) (y - snd box)
       else getpixel im x y |}.

Definition zrange (n : Z) : list Z := map Z.of_nat (seq 0 (Z.to_nat n)).

(** The rows of pixels [np.array(im)] is built from. *)
Definition to_raster (im : Image) : raster :=
  map (fun y => map (fun x => getpixel im x y) (zrange (width im)))
      (zrange (height im)).

End PIL.

(** ** The framebuffer device and the world the scripts run in *)

Record FixScreenInfo : Type := {
  id_name : string;
  smem_start : Z;
  smem_len : Z;
  type : Z;
  type_aux : Z;
  visual : Z;
  xpanstep : Z;
  ypanstep : Z;
  ywrapstep : Z;
  line_length : Z;
  mmio_start : Z;
  mmio_len : Z;
  accel : Z;
  capabilities : Z;
  reserved : Z * Z
}.

(** What the operating system answers to one write(2) on the device: the
    number of bytes it took, or an error number. *)
Inductive os_reply : Type :=
| Accepted (n : nat)
| Failed (errno : Z).

(** What the scripts print: a message, [Error: {str(e)}], the screen
    data of the debug mode, or a traceback. *)
Inductive line : Type :=
| Message (s : string)
| ErrorMessage (e : exn)
| DebugInfo (var_info : VarScreenInfo) (fix_info : FixScreenInfo)
| Traceback (e : exn).

Record World : Type := {
  ioctl_var : result VarScreenInfo;
  ioctl_fix : result FixScreenInfo;
  os_replies : list os_reply;
  (** the write calls the device has received: offset and bytes offered *)
  syscalls : list (Z * list Z);
  stdout : list line
}.

(** Computations on the world that may raise. *)
Definition M (A : Type) : Type := World -> result A * World.

Definition ret {A} (a : A) : M A := fun w => (Ok a, w).

Definition raise {A} (e : exn) : M A := fun w => (Raise e, w).

Definition lift {A} (r : result A) : M A := fun w => (r, w).

Definition bindM {A B} (c : M A) (k : A -> M B) : M B :=
  fun w =>
    match c w with
    | (Ok a, w') => k a w'
    | (Raise e, w') => (Raise e, w')
    end.

Notation "x <~ c ;; k" := (bindM c (fun x => k))
  (at level 61, c at next level, right associativity).

(** [try: body except Exception as e: handler e] *)
Definition try_except (body : M unit) (handler : exn -> M unit) : M unit :=
  fun w =>
    match body w with
    | (Ok a, w') => (Ok a, w')
    | (Raise e, w') => handler e w'
    end.

Definition print (l : line) : M unit :=
  fun w =>
    (Ok tt, {| ioctl_var := ioctl_var w; ioctl_fix := ioctl_fix w;
               os_replies := os_replies w; syscalls := syscalls w;
               stdout := stdout w ++ [l] |}).

Definition get_var_info : M VarScreenInfo := fun w => (ioctl_var w, w).

Definition get_fix_info : M FixScreenInfo := fun w => (ioctl_fix w, w).

(** The error number of a system call that a signal interrupted. *)
Definition EINTR : Z := 4.

(** The buffered binary file object: [f.write(buf)] takes the whole buffer
    and hands it to the operating system from the file position on; when
    the system takes only a part, the rest is offered again at the position
    reached, until nothing is left; a call that a signal interrupted
    ([EINTR]) is made again as it was; any other error of the system raises
    OSError.  Once the listed replies are used up the system takes all it
    is offered.  The result carries the replies left and the calls made. *)
Fixpoint write_all (replies : list os_reply) (pos : Z) (buf : list Z)
  : result unit * list os_reply * list (Z * list Z) :=
  match buf with
  | [] => (Ok tt, replies, [])
  | _ :: _ =>
    match replies with
    | [] => (Ok tt, [], [(pos, buf)])
    | Failed errno :: replies' =>
      if errno =? EINTR then
        let '(r, rest, calls) := write_all replies' pos buf in
        (r, rest, (pos, buf) :: calls)
      else (Raise (OSError errno), replies', [(pos, buf)])
    | Accepted n :: replies' =>
      let n := Nat.min n (length buf) in
      let '(r, rest, calls) :=
        write_all replies' (pos + Z.of_nat n) (skipn n buf) in
      (r, rest, (pos, buf) :: calls)
    end
  end.

(** [with open(fb_file, 'wb') as f: f.write(image_bytes)]: the file is
    opened anew, at position 0, for every frame. *)
Definition write_frame (image_bytes : list Z) : M unit :=
  fun w =>
    let '(r, rest, calls) := write_all (os_replies w) 0 image_bytes in
    (r, {| ioctl_var := ioctl_var w; ioctl_fix := ioctl_fix w;
           os_replies := rest; syscalls := syscalls w ++ calls;
           stdout := stdout w |}).

(** The end of every script: the frame is converted and written. *)
Definition encode_and_write (var_info : VarScreenInfo) (frame : raster)
  : M unit :=
  image_bytes <~ lift (encode var_info frame) ;;
  write_frame image_bytes.

(** ** Layout arithmetic *)

(** The 3x2 grid of [display_six_images].  The margins are
    [int(res * margin_percent / 100)]: the quotient by 100 rounded to a
    double and truncated toward zero.  These are the values where the
    division does not overflow; where it does the script raises (see
    [grid_compose]). *)
Definition horizontal_margin (var_info : VarScreenInfo) (margin_percent : Z) : Z :=
  Double.to_int (Double.round_ratio (xres var_info * margin_percent) 100).

Definition vertical_margin (var_info : VarScreenInfo) (margin_percent : Z) : Z :=
  Double.to_int (Double.round_ratio (yres var_info * margin_percent) 100).

Definition available_width (var_info : VarScreenInfo) (margin_percent : Z) : Z :=
  (xres var_info - 4 * horizontal_margin var_info margin_percent) / 3.

Definition available_height (var_info : VarScreenInfo) (margin_percent : Z) : Z :=
  (yres var_info - 3 * vertical_margin var_info margin_percent) / 2.

(** The upper left corner of the cell of image [i], before the image is
    centred in it. *)
Definition cell_origin (var_info : VarScreenInfo) (margin_percent : Z) (i : Z)
  : Z * Z :=
  let horizontal_margin := horizontal_margin var_info margin_percent in
  let vertical_margin := vertical_margin var_info margin_percent in
  let available_width := available_width var_info margin_percent in
  let available_height := available_height var_info margin_percent in
  (horizontal_margin + (i mod 3) * (available_width + horizontal_margin),
   vertical_margin + (i / 3) * (available_height + vertical_margin)).

(** The offset the resized image of size [new_size] is pasted at. *)
Definition paste_offset (var_info : VarScreenInfo) (margin_percent : Z) (i : Z)
  (new_size : Z * Z) : Z * Z :=
  let '(x_offset, y_offset) := cell_origin var_info margin_percent i in
  (x_offset + (available_width var_info margin_percent - fst new_size) / 2,
   y_offset + (available_height var_info margin_percent - snd new_size) / 2).

(** A pixel lies in the cell of image [i]. *)
Definition in_cell (var_info : VarScreenInfo) (margin_percent : Z) (i : Z)
  (x y : Z) : Prop :=
  let '(x0, y0) := cell_origin var_info margin_percent i in
  x0 <= x < x0 + available_width var_info margin_percent /\
  y0 <= y < y0 + available_height var_info margin_percent.

(** The two halves of [display_dual_images]: [var_info.xres // 2] and
    [int(new_width * image.height / image.width)]. *)
Definition new_width (var_info : VarScreenInfo) : Z := xres var_info / 2.

Definition new_height (var_info : VarScreenInfo) (image : PIL.Image)
  : result Z :=
  int_truediv (new_width var_info * PIL.height image) (PIL.width image).

(** ** The image library the scripts call *)

(** Decoding a file, Lanczos resampling and the floating-point scale of the
    grid cells are the library's and the float unit's work; the scripts
    only pass sizes in and out. *)
Class ImageLibrary : Type := {
  (** [Image.open(path)] *)
  Image_open : string -> result PIL.Image;
  (** [img.resize(size, Image.LANCZOS)] *)
  resize : PIL.Image -> Z * Z -> PIL.Image;
  (** [scale = min(w / img.width, h / img.height)] and
      [(int(img.width * scale), int(img.height * scale))] *)
  fit_size : Z -> Z -> PIL.Image -> result (Z * Z)
}.

(** The resampled image has the size asked for. *)
Definition resize_has_size (L : ImageLibrary) : Prop :=
  forall im size,
    PIL.width (resize im size) = fst size /\
    PIL.height (resize im size) = snd size.

(** ** The scripts *)

Section Scripts.

Context {L : ImageLibrary}.

(** [img.resize(size, Image.LANCZOS)] as the scripts call it: Pillow
    refuses a size with a side that is not positive. *)
Definition Image_resize (img : PIL.Image) (size : Z * Z)
  : result PIL.Image :=
  if (0 <? fst size) && (0 <? snd size) then Ok (resize img size)
  else Raise (ValueError "height and width must be > 0").

(** [botafogo.py] *)
Definition display_image (image_path fb_file : string) (debug : bool)
  : M unit :=
  try_except
    (var_info <~ get_var_info ;;
     fix_info <~ get_fix_info ;;
     _ <~ (if debug then print (DebugInfo var_info fix_info) else ret tt) ;;
     image <~ lift (Image_open image_path) ;;
     image <~ lift (Image_resize image (xres var_info, yres var_info)) ;;
     _ <~ encode_and_write var_info (PIL.to_raster image) ;;
     if debug then print (Message ("Image displayed on " ++ fb_file))
     else ret tt)
    (fun e =>
       _ <~ print (ErrorMessage e) ;;
       if debug then print (Traceback e) else ret tt).

(** [animate-single-image.py]: one pass of the loop from the anchor on.
    The anchor [(x, y)] comes from the clock through floating-point sine and
    cosine; the canvas is copied for every frame, so it stays black. *)
Definition animate_frame (var_info : VarScreenInfo)
  (canvas img_resized : PIL.Image) (x y : Z) : M unit :=
  let frame := PIL.paste canvas img_resized (x, y) in
  encode_and_write var_info (PIL.to_raster frame).

(** [nhd.py]: the canvas with the two copies. *)
Definition dual_compose (var_info : VarScreenInfo) (image : PIL.Image)
  : result PIL.Image :=
  let new_width := new_width var_info in
  new_height <- new_height var_info image ;;
  resized_image <- Image_resize image (new_width, new_height) ;;
  let combined_image :=
    PIL.new (xres var_info, yres var_info) PIL.default_color in
  let combined_image := PIL.paste combined_image resized_image (0, 0) in
  let combined_image :=
    PIL.paste combined_image resized_image (new_width, 0) in
  Ok combined_image.

Definition display_dual_images (image_path fb_file : string) : M unit :=
  try_except
    (var_info <~ get_var_info ;;
     fix_info <~ get_fix_info ;;
     image <~ lift (Image_open image_path) ;;
     combined_image <~ lift (dual_compose var_info image) ;;
     _ <~ encode_and_write var_info (PIL.to_raster combined_image) ;;
     print (Message ("Dual images displayed on " ++ fb_file)))
    (fun e => print (ErrorMessage e)).

(** [HousePepperCman.py]: the loop over [enumerate(image_paths)]. *)
Fixpoint paste_images (var_info : VarScreenInfo) (margin_percent : Z)
  (i : Z) (image_paths : list string) (layout : PIL.Image)
  : result PIL.Image :=
  match image_paths with
  | [] => Ok layout
  | image_path :: image_paths' =>
    img <- Image_open image_path ;;
    new_size <- fit_size (available_width var_info margin_percent)
                         (available_height var_info margin_percent) img ;;
    resized_img <- Image_resize img new_size ;;
    paste_images var_info margin_percent (i + 1) image_paths'
      (PIL.paste layout resized_img
         (paste_offset var_info margin_percent i new_size))
  end.

(** The margins are computed first; a margin too large for a double ends
    the run there. *)
Definition grid_compose (var_info : VarScreenInfo) (margin_percent : Z)
  (image_paths : list string) : result PIL.Image :=
  _ <- int_truediv (xres var_info * margin_percent) 100 ;;
  _ <- int_truediv (yres var_info * margin_percent) 100 ;;
  let layout := PIL.new (xres var_info, yres var_info) PIL.black in
  paste_images var_info margin_percent 0 image_paths layout.

Definition six_paths_message : string :=
  "Exactly six image paths must be provided.".

Definition display_six_images_body (image_paths : list string)
  (fb_file : string) (margin_percent : Z) : M unit :=
  if negb (length image_paths =? 6)%nat then
    raise (ValueError six_paths_message)
  else
    var_info <~ get_var_info ;;
    fix_info <~ get_fix_info ;;
    layout <~ lift (grid_compose var_info margin_percent image_paths) ;;
    _ <~ encode_and_write var_info (PIL.to_raster layout) ;;
    print (Message ("Six images displayed in a 2x3 grid on " ++ fb_file)).

Definition display_six_images (image_paths : list string)
  (fb_file : string) (margin_percent : Z) : M unit :=
  try_except (display_six_images_body image_paths fb_file margin_percent)
    (fun e => print (ErrorMessage e)).

End Scripts.

(** ** The orbit of the animation *)

(** [math.cos] and [math.sin]; what they return lies between -1 and 1. *)
Class Libm : Type := {
  cos : Double.float -> Double.float;
  sin : Double.float -> Double.float;
  cos_range : forall x, Z.abs (Double.num (cos x)) <= Double.den (cos x);
  sin_range : forall x, Z.abs (Double.num (sin x)) <= Double.den (sin x)
}.

(** [math.pi] *)
Definition pi : Double.float :=
  {| Double.mant := 884279719003555; Double.expo := -48 |}.

(** [0.25] *)
Definition quarter : Double.float :=
  {| Double.mant := 1; Double.expo := -2 |}.

(** [2 * math.pi / 5] *)
Definition angular_speed : Double.float :=
  Double.div (Double.mul (Double.of_int 2) pi) (Double.of_int 5).

(** The anchor of [animate_image] from the values [math.cos(angle)] and
    [math.sin(angle)]: the centre by floor division, the radius and the sum
    in doubles, the result truncated by [int]. *)
Definition anchor (var_info : VarScreenInfo) (new_size : Z * Z)
  (cos_angle sin_angle : Double.float) : Z * Z :=
  let center_x := xres var_info / 2 in
  let center_y := yres var_info / 2 in
  let radius :=
    Double.mul (Double.of_int (Z.min (xres var_info) (yres var_info)))
               quarter in
  let x :=
    Double.to_int
      (Double.sub
         (Double.add (Double.of_int center_x) (Double.mul radius cos_angle))
         (Double.round_ratio (fst new_size) 2)) in
  let y :=
    Double.to_int
      (Double.sub
         (Double.add (Double.of_int center_y) (Double.mul radius sin_angle))
         (Double.round_ratio (snd new_size) 2)) in
  (x, y).

(** The anchor at the reading [t] of the clock. *)
Definition animate_anchor (M : Libm) (var_info : VarScreenInfo)
  (new_size : Z * Z) (t : Double.float) : Z * Z :=
  let angle := Double.mul t angular_speed in
  anchor var_info new_size (cos angle) (sin angle).

(** Four times the anchor at t = 0 in the words of the spec,
    (center_x + radius - w/2, center_y - h/2) with center = (width/2,
    height/2) and radius = 0.25 * min(width, height); the factor keeps the
    halves and quarters of the spec's value in the integers. *)
Definition anchor_at_start_in_words_x4 (var_info : VarScreenInfo)
  (new_size : Z * Z) : Z * Z :=
  (2 * xres var_info + Z.min (xres var_info) (yres var_info)
   - 2 * fst new_size,
   2 * yres var_info - 2 * snd new_size).

(** The margin of the grid in the words of the spec:
    floor(res * margin_percent / 100). *)
Definition margin_in_words (res margin_percent : Z) : Z :=
  res * margin_percent / 100.

(** A stand-in for libm that answers at every angle what libm answers at
    0: cosine 1 and sine 0. *)
Definition libm_at_zero : Libm :=
  {| cos := fun _ => Double.one;
     sin := fun _ => Double.zero;
     cos_range := fun _ => ltac:(vm_compute; intros H; discriminate H);
     sin_range := fun _ => ltac:(vm_compute; intros H; discriminate H) |}.

(** ** Reading a frame back *)

(** Modelled from the spec: the scripts have no decoder.  The round trip of
    the spec reads the buffer back under the channel-layout rule of the
    encoder.  On the 32-bit path the alpha byte is dropped and the triplet
    is reversed under the same test as in [convert]. *)
Fixpoint decode32 (var_info : VarScreenInfo) (image_bytes : list Z)
  : list rgb :=
  match image_bytes with
  | c0 :: c1 :: c2 :: _ :: image_bytes' =>
    (if getitem (blue var_info) 2 =? 0 then (c2, c1, c0) else (c0, c1, c2))
      :: decode32 var_info image_bytes'
  | _ => []
  end.

(** Modelled from the spec: the scripts have no decoder.  The three fields
    of an RGB565 word are taken from the positions the encoder put them in
    and widened to 8 bits, the bits the encoder dropped set to the middle of
    their range: the reading for which the spec's bound of 4 on the
    quantization error is met. *)
Definition unpack565 (word : Z) : rgb :=
  (Z.lor (Z.shiftl (Z.shiftr word 11) 3) 4,
   Z.lor (Z.shiftl (Z.land (Z.shiftr word 5) 63) 2) 2,
   Z.lor (Z.shiftl (Z.land word 31) 3) 4).

(** Modelled from the spec: the buffer of the 16-bit path read back, two
    bytes per pixel, low byte first. *)
Fixpoint decode16 (image_bytes : list Z) : list rgb :=
  match image_bytes with
  | lo :: hi :: image_bytes' =>
    unpack565 (Z.lor lo (Z.shiftl hi 8)) :: decode16 image_bytes'
  | _ => []
  end.

(** Two pixels differ by at most [d] in every channel. *)
Definition within (d : Z) (p q : rgb) : Prop :=
  let '(r, g, b) := p in
  let '(r', g', b') := q in
  Z.abs (r - r') <= d /\ Z.abs (g - g') <= d /\ Z.abs (b - b') <= d.

(** The RGB565 word of a pixel, as the spec writes it. *)
Definition rgb565 (p : rgb) : Z :=
  let '(r, g, b) := p in
  Z.lor (Z.lor (Z.shiftl (Z.shiftr r 3) 11) (Z.shiftl (Z.shiftr g 2) 5))
        (Z.shiftr b 3).

(** A nearest-neighbour image library, to run the scripts on. *)
Definition nearest (im : PIL.Image) (size : Z * Z) : PIL.Image :=
  {| PIL.width := fst size;
     PIL.height := snd size;
     PIL.getpixel := fun x y =>
       PIL.getpixel im (x * PIL.width im / fst size)
                       (y * PIL.height im / snd size) |}.

Definition test_image : PIL.Image :=
  {| PIL.width := 640; PIL.height := 480;
     PIL.getpixel := fun x y => (x mod 256, y mod 256, 7) |}.

Definition test_library : ImageLibrary :=
  {| Image_open := fun _ => Ok test_image;
     resize := nearest;
     fit_size := fun w h im =>
       if (PIL.width im =? 0) || (PIL.height im =? 0) then
         Raise ZeroDivisionError
       else Ok (w, h) |}.

Definition screen (w h bpp : Z) (b : uint32x3) : VarScreenInfo :=
  {| xres := w; yres := h; xres_virtual := w; yres_virtual := h;
     xoffset := 0; yoffset := 0; bits_per_pixel := bpp; grayscale := 0;
     red := (16, 8, 0); green := (8, 8, 0); blue := b; transp := (24, 8, 0) |}.

(** A 32-bit device whose pixel word has red in the low byte: the bytes of
    a pixel are R, G, B, X in memory. *)
Definition rgbx_screen (w h : Z) : VarScreenInfo :=
  {| xres := w; yres := h; xres_virtual := w; yres_virtual := h;
     xoffset := 0; yoffset := 0; bits_per_pixel := 32; grayscale := 0;
     red := (0, 8, 0); green := (8, 8, 0); blue := (16, 8, 0);
     transp := (24, 8, 0) |}.

(** The four bytes of a pixel on the 32-bit path. *)
Definition bytes32 (var_info : VarScreenInfo) (p : rgb) : list Z :=
  let '(r, g, b) := p in
  if getitem (blue var_info) 2 =? 0 then [b; g; r; 255] else [r; g; b; 255].

(** The uint16 a pixel becomes on the 16-bit path, with the wrap-around of
    the uint16 operations written out. *)
Definition word16 (p : rgb) : Z :=
  let '(r, g, b) := p in
  Z.lor (Z.lor (Z.shiftl (Z.shiftr r 3 mod 2 ^ 16) 11 mod 2 ^ 16)
               (Z.shiftl (Z.shiftr g 2 mod 2 ^ 16) 5 mod 2 ^ 16))
        (Z.shiftr b 3 mod 2 ^ 16).

(** The raw bytes of a pixel. *)
Definition bytes24 (p : rgb) : list Z := let '(r, g, b) := p in [r; g; b].

Definition test_fix_info : FixScreenInfo :=
  {| id_name := "fb"; smem_start := 0; smem_len := 8294400; type := 0;
     type_aux := 0; visual := 2; xpanstep := 1; ypanstep := 1;
     ywrapstep := 0; line_length := 7680; mmio_start := 0; mmio_len := 0;
     accel := 0; capabilities := 0; reserved := (0, 0) |}.

(** A world in which the device answers the two queries and the system
    answers the write calls with [replies]. *)
Definition world (var_info : VarScreenInfo) (replies : list os_reply) : World :=
  {| ioctl_var := Ok var_info; ioctl_fix := Ok test_fix_info;
     os_replies := replies; syscalls := []; stdout := [] |}.

(** The 32-bit layout in the words of the spec: the triplet is reversed
    exactly when the bit offset of the blue channel is 0. *)
Definition bytes32_by_offset (var_info : VarScreenInfo) (p : rgb) : list Z :=
  let '(r, g, b) := p in
  if bit_offset (blue var_info) =? 0 then [b; g; r; 255]
  else [r; g; b; 255].

(** The claim of the spec for the other depths, in its own words: the
    encoder fails and the device receives nothing. *)
Definition fails_unsupported (var_info : VarScreenInfo) (frame : raster)
  (w : World) : Prop :=
  (exists e, encode var_info frame = Raise e) /\
  syscalls (snd (encode_and_write var_info frame w)) = syscalls w.

(** The system reports a short write on the first call. *)
Definition short_write_reported (image_bytes : list Z) (w : World) : Prop :=
  exists n replies,
    os_replies w = Accepted n :: replies /\ (n < length image_bytes)%nat.

(** The claim of the spec for a short write, in its own words: the write
    fails and the buffer is offered to the device once only. *)
Definition fails_without_reissue (image_bytes : list Z) (w : World) : Prop :=
  (exists e, fst (write_frame image_bytes w) = Raise e) /\
  syscalls (snd (write_frame image_bytes w)) = syscalls w ++ [(0, image_bytes)].

(** The bytes a pixel takes in the buffer [convert] builds. *)
Definition pixel_size (var_info : VarScreenInfo) : nat :=
  if bits_per_pixel var_info =? 32 then 4
  else if bits_per_pixel var_info =? 16 then 2
  else 3.

(** The bytes of one pixel in that buffer. *)
Definition pixel_bytes (var_info : VarScreenInfo) (p : rgb) : list Z :=
  if bits_per_pixel var_info =? 32 then bytes32 var_info p
  else if bits_per_pixel var_info =? 16 then Np.uint16_bytes (word16 p)
  else bytes24 p.

(** The pixel of a raster in column [x] of row [y]. *)
Definition pixel_at (frame : raster) (x y : nat) : option rgb :=
  match nth_error frame y with
  | Some row => nth_error row x
  | None => None
  end.

(** * Properties *)

(** ** Lists and [mapM] *)

Lemma mapM_map_ok {A B C} (f : B -> result C) (h : A -> B) (g : A -> C) l :
  (forall a, In a l -> f (h a) = Ok (g a)) ->
  mapM f (map h l) = Ok (map g l).
Proof.
  induction l as [|a l IH]; intros Hf; simpl; [reflexivity|].
  rewrite Hf by (left; reflexivity).
  simpl. rewrite IH by (intros; apply Hf; right; assumption).
  reflexivity.
Qed.

Lemma mapM2_map_ok {A C} (f : list Z -> result C) (h : A -> list Z)
  (g : A -> C) (a : list (list A)) :
  (forall p, f (h p) = Ok (g p)) ->
  mapM (mapM f) (map (map h) a) = Ok (map (map g) a).
Proof.
  intros Hf. apply mapM_map_ok. intros row _.
  apply mapM_map_ok. intros p _. apply Hf.
Qed.

Lemma zip_with_map {A B} (f : B -> B -> B) (g h : A -> B) l :
  Np.zip_with f (map g l) (map h l) = map (fun x => f (g x) (h x)) l.
Proof.
  induction l as [|a l IH]; simpl; [reflexivity|]. now rewrite IH.
Qed.

Lemma zip_with2_map {A} (f : Z -> Z -> Z) (g h : A -> Z) (a : list (list A)) :
  Np.zip_with (Np.zip_with f) (map (map g) a) (map (map h) a)
  = map (map (fun x => f (g x) (h x))) a.
Proof.
  induction a as [|row a IH]; simpl; [reflexivity|].
  now rewrite zip_with_map, IH.
Qed.

Lemma concat2_map {A} (f : A -> list Z) (a : list (list A)) :
  concat (concat (map (map f) a)) = flat_map f (concat a).
Proof.
  rewrite <- concat_map, flat_map_concat_map. reflexivity.
Qed.

Lemma length_flat_map_const {A B} (f : A -> list B) (k : nat) l :
  (forall a, length (f a) = k) ->
  length (flat_map f l) = (k * length l)%nat.
Proof.
  intros Hk. induction l as [|a l IH]; simpl; [lia|].
  rewrite length_app, Hk, IH. lia.
Qed.

Lemma length_pixels frame w h :
  has_shape frame w h -> length (pixels frame) = (w * h)%nat.
Proof.
  unfold has_shape, pixels. intros [Hh Hw]. subst h.
  induction Hw as [|row frame Hrow _ IH]; simpl; [lia|].
  rewrite length_app, Hrow, IH. lia.
Qed.

Lemma Forall_pixels (P : rgb -> Prop) frame :
  Forall (Forall P) frame -> Forall P (pixels frame).
Proof.
  unfold pixels. induction 1 as [|row frame Hrow _ IH]; simpl.
  - constructor.
  - apply Forall_app. split; assumption.
Qed.

(** ** The 32-bit path *)

Lemma encode_32 var_info frame :
  bits_per_pixel var_info = 32 ->
  encode var_info frame = Ok (flat_map (bytes32 var_info) (pixels frame)).
Proof.
  intros Hbpp. unfold encode, convert, Np.insert_axis2, Np.rev_axis2, Np.array.
  rewrite Hbpp. simpl (32 =? 32).  cbv iota.
  destruct (getitem (blue var_info) 2 =? 0) eqn:Hblue.
  - rewrite map_map.
    erewrite (mapM_map_ok _ _ (map (bytes32 var_info))).
    + simpl. rewrite concat2_map. reflexivity.
    + intros row _. rewrite map_map.
      apply mapM_map_ok. intros [[r g] b] _.
      unfold bytes32. rewrite Hblue. reflexivity.
  - erewrite (mapM2_map_ok _ _ (bytes32 var_info)).
    + simpl. rewrite concat2_map. reflexivity.
    + intros [[r g] b]. unfold bytes32. rewrite Hblue. reflexivity.
Qed.

(** ** The 16-bit path *)

Lemma channel_array (k : nat) (proj : rgb -> Z) frame :
  (forall r g b, nth_error [r; g; b] k = Some (proj (r, g, b))) ->
  Np.channel (Np.array frame) k = Ok (map (map proj) frame).
Proof.
  intros Hk. unfold Np.channel, Np.array.
  apply mapM2_map_ok. intros [[r g] b]. unfold Np.item.
  now rewrite Hk.
Qed.

Lemma encode_16 var_info frame :
  bits_per_pixel var_info = 16 ->
  encode var_info frame
  = Ok (flat_map (fun p => Np.uint16_bytes (word16 p)) (pixels frame)).
Proof.
  intros Hbpp. unfold encode, convert. rewrite Hbpp.
  simpl (16 =? 32). simpl (16 =? 16). cbv iota.
  rewrite (channel_array 0 (fun p => fst (fst p))) by reflexivity.
  rewrite (channel_array 1 (fun p => snd (fst p))) by reflexivity.
  rewrite (channel_array 2 (fun p => snd p)) by reflexivity.
  simpl bind.
  unfold Np.lshift16, Np.astype_uint16, Np.rshift, Np.bitor, Np.map2d.
  repeat (rewrite map_map;
          rewrite (map_ext _ _ (fun row => map_map _ _ row))).
  rewrite !zip_with2_map. simpl Np.flatten_tobytes.
  unfold pixels. rewrite <- concat_map, !flat_map_concat_map, map_map.
  f_equal. f_equal. apply map_ext. intros [[r g] b]. reflexivity.
Qed.

(** ** Bit fields as arithmetic *)

(** Linear arithmetic with quotients and remainders by constants. *)
Ltac divlia := Z.to_euclidean_division_equations; lia.

Lemma lor_shiftl_add a b k :
  0 <= k -> 0 <= b < 2 ^ k -> Z.lor (Z.shiftl a k) b = a * 2 ^ k + b.
Proof.
  intros Hk Hb.
  assert (Hdisj : Z.land (Z.shiftl a k) b = 0).
  { apply Z.bits_inj'. intros n Hn.
    rewrite Z.land_spec, Z.bits_0.
    destruct (Z.ltb_spec n k).
    - rewrite Z.shiftl_spec_low by assumption. reflexivity.
    - rewrite <- (Z.mod_small b (2 ^ k)) by assumption.
      rewrite Z.mod_pow2_bits_high by lia. apply andb_false_r. }
  rewrite <- Z.shiftl_mul_pow2 by assumption.
  rewrite <- Z.lxor_lor by assumption.
  symmetry. apply Z.add_nocarry_lxor. assumption.
Qed.

Lemma rgb565_sum r g b :
  is_byte r -> is_byte g -> is_byte b ->
  rgb565 (r, g, b) = (r / 8) * 2048 + (g / 4) * 32 + b / 8.
Proof.
  unfold is_byte, rgb565. intros Hr Hg Hb.
  rewrite !Z.shiftr_div_pow2 by lia.
  change (2 ^ 3) with 8. change (2 ^ 2) with 4.
  rewrite (Z.shiftl_mul_pow2 (g / 4)) by lia. change (2 ^ 5) with 32.
  rewrite (lor_shiftl_add (r / 8) (g / 4 * 32) 11)
    by (change (2 ^ 11) with 2048; divlia).
  change (2 ^ 11) with 2048.
  replace (r / 8 * 2048 + g / 4 * 32)
    with (Z.shiftl (r / 8 * 64 + g / 4) 5)
    by (rewrite Z.shiftl_mul_pow2 by lia; change (2 ^ 5) with 32; lia).
  rewrite lor_shiftl_add by (change (2 ^ 5) with 32; divlia).
  rewrite Z.shiftl_mul_pow2 by lia. change (2 ^ 5) with 32. lia.
Qed.

Lemma word16_rgb565 p : rgb_bytes p -> word16 p = rgb565 p.
Proof.
  destruct p as [[r g] b]. intros (Hr & Hg & Hb).
  unfold word16, rgb565, is_byte in *.
  assert (H3 : forall v, 0 <= v < 256 -> Z.shiftr v 3 = v / 8)
    by (intros; now rewrite Z.shiftr_div_pow2 by lia).
  assert (H2 : Z.shiftr g 2 = g / 4)
    by (now rewrite Z.shiftr_div_pow2 by lia).
  rewrite !H3, H2 by assumption.
  rewrite !Z.shiftl_mul_pow2 by lia.
  change (2 ^ 16) with 65536. change (2 ^ 11) with 2048.
  change (2 ^ 5) with 32.
  rewrite (Z.mod_small (r / 8)), (Z.mod_small (g / 4)),
    (Z.mod_small (b / 8)) by divlia.
  rewrite !Z.mod_small by divlia. reflexivity.
Qed.

Lemma rgb565_fields r g b :
  is_byte r -> is_byte g -> is_byte b ->
  let word := rgb565 (r, g, b) in
  0 <= word < 65536 /\
  Z.shiftr word 11 = Z.shiftr r 3 /\
  Z.land (Z.shiftr word 5) 63 = Z.shiftr g 2 /\
  Z.land word 31 = Z.shiftr b 3.
Proof.
  intros Hr Hg Hb word. subst word.
  rewrite rgb565_sum by assumption. unfold is_byte in *.
  change 63 with (Z.ones 6). change 31 with (Z.ones 5).
  rewrite !Z.land_ones by lia. rewrite !Z.shiftr_div_pow2 by lia.
  change (2 ^ 11) with 2048. change (2 ^ 5) with 32. change (2 ^ 6) with 64.
  change (2 ^ 3) with 8. change (2 ^ 2) with 4.
  repeat split; divlia.
Qed.

Lemma uint16_bytes_le word :
  0 <= word < 65536 ->
  Np.uint16_bytes word = [Z.land word 255; Z.shiftr word 8].
Proof.
  intros Hw. unfold Np.uint16_bytes.
  change 255 with (Z.ones 8). rewrite Z.land_ones by lia.
  rewrite Z.shiftr_div_pow2 by lia. change (2 ^ 8) with 256.
  rewrite (Z.mod_small (word / 256)) by divlia. reflexivity.
Qed.

Lemma flat_map_ext_Forall {A B} (f g : A -> list B) l :
  Forall (fun a => f a = g a) l -> flat_map f l = flat_map g l.
Proof.
  induction 1 as [|a l Ha _ IH]; simpl; [reflexivity|]. now rewrite Ha, IH.
Qed.

(** ** Claims on the pixel encoder *)

(** General form of the 32-bit path: the triplet is reversed exactly when
    word 2 of the blue descriptor is 0, and 255 is the 4th byte of every
    pixel. *)
Lemma encode_32_layout var_info frame :
  bits_per_pixel var_info = 32 ->
  exists image_bytes,
    encode var_info frame = Ok image_bytes /\
    image_bytes
    = flat_map (fun p : rgb => let '(r, g, b) := p in
                  if msb_right (blue var_info) =? 0 then [b; g; r; 255]
                  else [r; g; b; 255]) (pixels frame).
Proof.
  intros Hbpp. eexists. split; [apply encode_32; assumption|].
  apply flat_map_ext_Forall, Forall_forall. intros [[r g] b] _. reflexivity.
Qed.

(** Where the two descriptor words agree on being zero the encoder does
    what the spec says. *)
Lemma encode_32_by_offset var_info frame :
  bits_per_pixel var_info = 32 ->
  (bit_offset (blue var_info) =? 0) = (msb_right (blue var_info) =? 0) ->
  encode var_info frame
  = Ok (flat_map (bytes32_by_offset var_info) (pixels frame)).
Proof.
  intros Hbpp Hagree. rewrite encode_32 by assumption. f_equal.
  apply flat_map_ext_Forall, Forall_forall. intros [[r g] b] _.
  unfold bytes32, bytes32_by_offset. rewrite Hagree. reflexivity.
Qed.

(** C1: on a 32-bit device whose blue channel has bit offset 16 (the bytes
    of a pixel are R, G, B, X) the encoder still reverses the triplet to
    B, G, R before the alpha byte 255, where the spec leaves it R, G, B:
    the test reads word 2 of the blue descriptor, not its bit offset. *)
Theorem encode_reverses_at_blue_offset_16 :
  bits_per_pixel (rgbx_screen 1 1) = 32 /\
  bit_offset (blue (rgbx_screen 1 1)) = 16 /\
  encode (rgbx_screen 1 1) [[(10, 20, 30)]] = Ok [30; 20; 10; 255] /\
  flat_map (bytes32_by_offset (rgbx_screen 1 1)) (pixels [[(10, 20, 30)]])
  = [10; 20; 30; 255].
Proof. repeat split. Qed.

(** C2: on a 16-bit device the buffer has 2 * width * height bytes; every
    pixel is the word ((r >> 3) << 11) | ((g >> 2) << 5) | (b >> 3), low
    byte first, whose three fields are the truncated channels. *)
Theorem encode_rgb565 var_info frame w h :
  bits_per_pixel var_info = 16 ->
  has_shape frame w h ->
  frame_bytes frame ->
  exists image_bytes,
    encode var_info frame = Ok image_bytes /\
    length image_bytes = (2 * w * h)%nat /\
    image_bytes
    = flat_map (fun p => [Z.land (rgb565 p) 255; Z.shiftr (rgb565 p) 8])
               (pixels frame) /\
    Forall (fun p : rgb => let '(r, g, b) := p in
              Z.shiftr (rgb565 p) 11 = Z.shiftr r 3 /\
              Z.land (Z.shiftr (rgb565 p) 5) 63 = Z.shiftr g 2 /\
              Z.land (rgb565 p) 31 = Z.shiftr b 3 /\
              Z.shiftr r 3 = r / 8 /\ Z.shiftr g 2 = g / 4 /\
              Z.shiftr b 3 = b / 8)
           (pixels frame).
Proof.
  intros Hbpp Hshape Hbytes.
  apply Forall_pixels in Hbytes.
  eexists. split; [apply encode_16; assumption|]. split; [|split].
  - rewrite (length_flat_map_const _ 2) by reflexivity.
    rewrite (length_pixels frame w h) by assumption. lia.
  - apply flat_map_ext_Forall.
    eapply Forall_impl; [|exact Hbytes]. intros [[r g] b] Hp.
    rewrite word16_rgb565 by assumption.
    destruct Hp as (Hr & Hg & Hb).
    apply uint16_bytes_le, rgb565_fields; assumption.
  - eapply Forall_impl; [|exact Hbytes]. intros [[r g] b] (Hr & Hg & Hb).
    destruct (rgb565_fields r g b Hr Hg Hb) as (_ & H11 & H5 & H0).
    repeat split; try assumption;
      now rewrite Z.shiftr_div_pow2 by lia.
Qed.

Lemma encode_rgb565_witness :
  exists image_bytes,
    encode (screen 2 1 16 (0, 5, 0)) [[(255, 128, 7); (8, 4, 8)]]
    = Ok image_bytes /\
    length image_bytes = (2 * 2 * 1)%nat /\
    image_bytes
    = flat_map (fun p => [Z.land (rgb565 p) 255; Z.shiftr (rgb565 p) 8])
               (pixels [[(255, 128, 7); (8, 4, 8)]]) /\
    Forall (fun p : rgb => let '(r, g, b) := p in
              Z.shiftr (rgb565 p) 11 = Z.shiftr r 3 /\
              Z.land (Z.shiftr (rgb565 p) 5) 63 = Z.shiftr g 2 /\
              Z.land (rgb565 p) 31 = Z.shiftr b 3 /\
              Z.shiftr r 3 = r / 8 /\ Z.shiftr g 2 = g / 4 /\
              Z.shiftr b 3 = b / 8)
           (pixels [[(255, 128, 7); (8, 4, 8)]]).
Proof.
  apply (encode_rgb565 (screen 2 1 16 (0, 5, 0))
           [[(255, 128, 7); (8, 4, 8)]] 2 1).
  - reflexivity.
  - split; [reflexivity|]. repeat constructor.
  - repeat constructor; unfold is_byte; lia.
Defined.

Lemma encode_raw var_info frame :
  bits_per_pixel var_info <> 16 ->
  bits_per_pixel var_info <> 32 ->
  encode var_info frame = Ok (flat_map bytes24 (pixels frame)).
Proof.
  intros H16 H32. unfold encode, convert.
  apply Z.eqb_neq in H16, H32. rewrite H16, H32. simpl.
  unfold Np.array. rewrite concat2_map. reflexivity.
Qed.

(** C3, as stated, fails: at 24 bits per pixel the encoder returns the raw
    R, G, B bytes and they are written to the device. *)
Lemma depth_24_is_written_raw :
  let var_info := screen 1 1 24 (0, 8, 0) in
  let w := world var_info [] in
  bits_per_pixel var_info <> 16 /\
  bits_per_pixel var_info <> 32 /\
  encode var_info [[(1, 2, 3)]] = Ok [1; 2; 3] /\
  syscalls (snd (encode_and_write var_info [[(1, 2, 3)]] w)) = [(0, [1; 2; 3])] /\
  ~ fails_unsupported var_info [[(1, 2, 3)]] w.
Proof.
  cbv zeta. repeat split; try discriminate.
  intros [[e He] _]. discriminate He.
Qed.

(** C3, amended: when bits_per_pixel is neither 16 nor 32 the encoder does
    not fail; it returns the R, G, B bytes of the frame unchanged, three per
    pixel, and that buffer is what is written to the device. *)
Theorem encode_other_depth var_info frame w :
  bits_per_pixel var_info <> 16 ->
  bits_per_pixel var_info <> 32 ->
  encode var_info frame = Ok (flat_map bytes24 (pixels frame)) /\
  encode_and_write var_info frame w
  = write_frame (flat_map bytes24 (pixels frame)) w.
Proof.
  intros H16 H32.
  assert (He : encode var_info frame = Ok (flat_map bytes24 (pixels frame)))
    by (apply encode_raw; assumption).
  split; [exact He|].
  unfold encode_and_write, bindM, lift. rewrite He. reflexivity.
Qed.

Lemma encode_other_depth_witness :
  encode (screen 1 1 24 (0, 8, 0)) [[(1, 2, 3)]]
  = Ok (flat_map bytes24 (pixels [[(1, 2, 3)]])) /\
  encode_and_write (screen 1 1 24 (0, 8, 0)) [[(1, 2, 3)]]
    (world (screen 1 1 24 (0, 8, 0)) [])
  = write_frame (flat_map bytes24 (pixels [[(1, 2, 3)]]))
      (world (screen 1 1 24 (0, 8, 0)) []).
Proof.
  apply (encode_other_depth (screen 1 1 24 (0, 8, 0)) [[(1, 2, 3)]]
           (world (screen 1 1 24 (0, 8, 0)) [])).
  - simpl. lia.
  - simpl. lia.
Defined.

(** ** The round trip *)

Lemma decode32_pixel var_info p image_bytes :
  decode32 var_info (bytes32 var_info p ++ image_bytes)
  = p :: decode32 var_info image_bytes.
Proof.
  destruct p as [[r g] b]. unfold bytes32.
  destruct (getitem (blue var_info) 2 =? 0) eqn:Hblue;
    cbn [app decode32]; rewrite Hblue; reflexivity.
Qed.

Lemma decode32_encode var_info l :
  decode32 var_info (flat_map (bytes32 var_info) l) = l.
Proof.
  induction l as [|p l IH]; [reflexivity|].
  cbn [flat_map]. rewrite decode32_pixel, IH. reflexivity.
Qed.

Lemma uint16_bytes_join word :
  0 <= word < 65536 ->
  Z.lor (word mod 256) (Z.shiftl (word / 256 mod 256) 8) = word.
Proof.
  intros Hw. rewrite Z.lor_comm.
  rewrite lor_shiftl_add by (change (2 ^ 8) with 256; divlia).
  change (2 ^ 8) with 256. divlia.
Qed.

Lemma unpack565_rgb565 r g b :
  is_byte r -> is_byte g -> is_byte b ->
  unpack565 (rgb565 (r, g, b))
  = (r / 8 * 8 + 4, g / 4 * 4 + 2, b / 8 * 8 + 4).
Proof.
  intros Hr Hg Hb.
  destruct (rgb565_fields r g b Hr Hg Hb) as (_ & H11 & H5 & H0).
  unfold unpack565. rewrite H11, H5, H0. unfold is_byte in *.
  rewrite !Z.shiftr_div_pow2 by lia.
  change (2 ^ 3) with 8. change (2 ^ 2) with 4.
  rewrite !lor_shiftl_add by (simpl; lia).
  reflexivity.
Qed.

Lemma unpack565_within_4 p :
  rgb_bytes p -> within 4 p (unpack565 (rgb565 p)).
Proof.
  destruct p as [[r g] b]. intros (Hr & Hg & Hb).
  rewrite unpack565_rgb565 by assumption.
  unfold within, is_byte in *. repeat split; divlia.
Qed.

Lemma decode16_encode l :
  Forall rgb_bytes l ->
  Forall2 (within 4) l
    (decode16 (flat_map (fun p => Np.uint16_bytes (word16 p)) l)).
Proof.
  induction 1 as [|p l Hp _ IH]; [constructor|].
  cbn [flat_map app decode16]. unfold Np.uint16_bytes at 1.
  cbn [app decode16]. constructor; [|exact IH].
  rewrite word16_rgb565 by assumption.
  destruct p as [[r g] b]. destruct Hp as (Hr & Hg & Hb).
  destruct (rgb565_fields r g b Hr Hg Hb) as (Hword & _).
  rewrite uint16_bytes_join by exact Hword.
  apply unpack565_within_4. exact (conj Hr (conj Hg Hb)).
Qed.

(** C4: reading an encoded frame back under the encoder's layout rule
    gives the original pixels exactly on the 32-bit path and pixels within
    4 of the original in every channel on the 16-bit path. *)
Theorem encode_decode_round_trip var_info32 var_info16 frame :
  bits_per_pixel var_info32 = 32 ->
  bits_per_pixel var_info16 = 16 ->
  frame_bytes frame ->
  (exists image_bytes,
     encode var_info32 frame = Ok image_bytes /\
     decode32 var_info32 image_bytes = pixels frame) /\
  (exists image_bytes,
     encode var_info16 frame = Ok image_bytes /\
     Forall2 (within 4) (pixels frame) (decode16 image_bytes)).
Proof.
  intros H32 H16 Hbytes. apply Forall_pixels in Hbytes. split.
  - eexists. split; [apply encode_32; assumption|].
    apply decode32_encode.
  - eexists. split; [apply encode_16; assumption|].
    apply decode16_encode. assumption.
Qed.

Lemma encode_decode_round_trip_witness :
  (exists image_bytes,
     encode (screen 2 1 32 (0, 8, 0)) [[(255, 128, 7); (8, 4, 9)]]
     = Ok image_bytes /\
     decode32 (screen 2 1 32 (0, 8, 0)) image_bytes
     = pixels [[(255, 128, 7); (8, 4, 9)]]) /\
  (exists image_bytes,
     encode (screen 2 1 16 (0, 5, 0)) [[(255, 128, 7); (8, 4, 9)]]
     = Ok image_bytes /\
     Forall2 (within 4) (pixels [[(255, 128, 7); (8, 4, 9)]])
       (decode16 image_bytes)).
Proof.
  apply (encode_decode_round_trip (screen 2 1 32 (0, 8, 0))
           (screen 2 1 16 (0, 5, 0)) [[(255, 128, 7); (8, 4, 9)]]).
  - reflexivity.
  - reflexivity.
  - repeat constructor; unfold is_byte; lia.
Defined.

(** ** Doubles *)

Module DoubleFacts.

Import Double.

Lemma pow2_pos k : 0 < pow2 k.
Proof. unfold pow2. apply Z.pow_pos_nonneg; lia. Qed.

Lemma pow2_nonneg k : 0 <= k -> pow2 k = 2 ^ k.
Proof. intros H. unfold pow2. now rewrite Z.max_r by lia. Qed.

Lemma pow2_nonpos k : k <= 0 -> pow2 k = 1.
Proof. intros H. unfold pow2. now rewrite Z.max_l by lia. Qed.

Lemma rhe_bounds n d :
  0 < d ->
  let m := round_half_even n d in
  (m = n / d /\ 2 * (n mod d) <= d) \/ (m = n / d + 1 /\ d <= 2 * (n mod d)).
Proof.
  intros Hd. unfold round_half_even. cbv zeta.
  destruct (Z.ltb_spec (2 * (n mod d)) d); [left; split; [reflexivity|lia]|].
  destruct (Z.ltb_spec d (2 * (n mod d))); [right; split; [reflexivity|lia]|].
  destruct (Z.even (n / d)); [left|right]; split; try reflexivity; lia.
Qed.

Lemma rhe_exact n d q : 0 < d -> n = q * d -> round_half_even n d = q.
Proof.
  intros Hd ->. unfold round_half_even.
  rewrite Z.mod_mul, Z.div_mul by lia.
  destruct (Z.ltb_spec (2 * 0) d); [reflexivity|lia].
Qed.

Lemma rhe_nonneg n d : 0 <= n -> 0 < d -> 0 <= round_half_even n d.
Proof.
  intros Hn Hd. pose proof (Z.div_pos n d Hn Hd).
  destruct (rhe_bounds n d Hd) as [[-> _]|[-> _]]; lia.
Qed.

(** Rounding a quotient at a grid of [1/s] that is fine enough and then
    flooring gives the floor of the quotient. *)
Lemma rhe_floor a b s :
  0 <= a -> 0 < b -> 0 < s -> b < 2 * s ->
  round_half_even (a * s) b / s = a / b.
Proof.
  intros Ha Hb Hs Hfine.
  pose proof (Z.div_mod a b ltac:(lia)) as Ea.
  pose proof (Z.mod_pos_bound a b Hb) as Ra.
  pose proof (Z.div_mod (a * s) b ltac:(lia)) as EN.
  pose proof (Z.mod_pos_bound (a * s) b Hb) as RN.
  set (n0 := a / b) in *. set (r0 := a mod b) in *.
  set (q := a * s / b) in *. set (r := (a * s) mod b) in *.
  assert (Hlow : n0 * s <= q).
  { apply Z.div_le_lower_bound; [lia|]. nia. }
  assert (Hup : q < (n0 + 1) * s).
  { apply Z.div_lt_upper_bound; [lia|]. nia. }
  symmetry. apply Z.div_unique with (r := round_half_even (a * s) b - n0 * s).
  - left. destruct (rhe_bounds (a * s) b Hb) as [[-> _]|[-> Hr]]; fold q.
    + lia.
    + fold r in Hr. split; [lia|].
      assert (2 * (q + 1) * b < 2 * (n0 + 1) * s * b) by nia.
      nia.
  - lia.
Qed.

Lemma round_pos_unfold a b :
  round_pos a b
  = let e := Z.max (exponent a b - 52) (-1074) in
    {| mant := round_half_even (a * pow2 (- e)) (b * pow2 e); expo := e |}.
Proof. reflexivity. Qed.

Lemma exponent_spec a b :
  0 < a -> 0 < b ->
  b * pow2 (exponent a b) <= a * pow2 (- exponent a b) /\
  Z.log2 a - Z.log2 b - 1 <= exponent a b <= Z.log2 a - Z.log2 b.
Proof.
  intros Ha Hb. unfold exponent.
  set (k0 := Z.log2 a - Z.log2 b).
  destruct (ge_pow2 a b k0) eqn:Hge.
  - unfold ge_pow2 in Hge. apply Z.leb_le in Hge. split; [exact Hge|lia].
  - split; [|lia].
    destruct (Z.log2_spec a Ha) as [Hla _].
    destruct (Z.log2_spec b Hb) as [_ Hlb].
    pose proof (Z.log2_nonneg a). pose proof (Z.log2_nonneg b).
    destruct (Z.le_gt_cases 0 (k0 - 1)) as [Hk|Hk].
    + rewrite (pow2_nonneg (k0 - 1)), (pow2_nonpos (- (k0 - 1))) by lia.
      assert (E : 2 ^ Z.succ (Z.log2 b) * 2 ^ (k0 - 1) = 2 ^ Z.log2 a)
        by (rewrite <- Z.pow_add_r by lia; f_equal; lia).
      assert (0 < 2 ^ (k0 - 1)) by (apply Z.pow_pos_nonneg; lia).
      nia.
    + rewrite (pow2_nonpos (k0 - 1)), (pow2_nonneg (- (k0 - 1))) by lia.
      assert (E : 2 ^ Z.log2 a * 2 ^ (- (k0 - 1)) = 2 ^ Z.succ (Z.log2 b))
        by (rewrite <- Z.pow_add_r by lia; f_equal; lia).
      assert (0 < 2 ^ (- (k0 - 1))) by (apply Z.pow_pos_nonneg; lia).
      nia.
Qed.

Lemma log2_lt_53 a : 0 < a < 2 ^ 53 -> 0 <= Z.log2 a <= 52.
Proof.
  intros [Ha Hlt]. split; [apply Z.log2_nonneg|].
  apply Z.log2_lt_pow2 in Hlt; lia.
Qed.

(** The double nearest to a quotient of integers below 2^53 has the
    integer part of the quotient. *)
Lemma to_int_round_pos a b :
  0 < a < 2 ^ 53 -> 0 < b < 2 ^ 53 ->
  num (round_pos a b) / den (round_pos a b) = a / b /\
  0 <= num (round_pos a b) < 2 ^ 1024 /\
  0 < den (round_pos a b).
Proof.
  intros Ha Hb.
  destruct (exponent_spec a b) as (Hlow & Hk1 & Hk2); [lia|lia|].
  pose proof (log2_lt_53 a Ha). pose proof (log2_lt_53 b Hb).
  rewrite round_pos_unfold. cbv zeta.
  set (k := exponent a b) in *.
  rewrite (Z.max_l (k - 52) (-1074)) by lia.
  unfold num, den. cbn [mant expo].
  rewrite (pow2_nonpos (k - 52)), (pow2_nonneg (- (k - 52))) by lia.
  rewrite !Z.mul_1_r.
  set (s := 2 ^ (- (k - 52))).
  assert (Hs : 0 < s) by (apply Z.pow_pos_nonneg; lia).
  assert (Hfine : b < 2 * s).
  { destruct (Z.le_gt_cases 0 k) as [Hk|Hk].
    - rewrite (pow2_nonneg k), (pow2_nonpos (- k)) in Hlow by lia.
      assert (E : s * 2 ^ k = 2 ^ 52)
        by (unfold s; rewrite <- Z.pow_add_r by lia; f_equal; lia).
      change (2 ^ 53) with (2 * 2 ^ 52) in Ha. nia.
    - rewrite (pow2_nonpos k), (pow2_nonneg (- k)) in Hlow by lia.
      assert (E : s = 2 ^ 52 * 2 ^ (- k))
        by (unfold s; rewrite <- Z.pow_add_r by lia; f_equal; lia).
      assert (0 < 2 ^ (- k)) by (apply Z.pow_pos_nonneg; lia).
      change (2 ^ 53) with (2 * 2 ^ 52) in Ha. nia. }
  split; [apply rhe_floor; lia|]. split; [|exact Hs].
  split; [apply rhe_nonneg; nia|].
  assert (Hs106 : s <= 2 ^ 106) by (apply Z.pow_le_mono_r; lia).
  assert (Hdiv : a * s / b <= a * s)
    by (apply Z.div_le_upper_bound; nia).
  assert (Hbig : 2 ^ 53 * 2 ^ 106 + 1 < 2 ^ 1024) by (vm_compute; reflexivity).
  destruct (rhe_bounds (a * s) b ltac:(lia)) as [[-> _]|[-> _]]; nia.
Qed.

Lemma num_neg_mant x :
  num {| mant := - mant x; expo := expo x |} = - num x.
Proof. unfold num. cbn [mant expo]. lia. Qed.

(** [int(a / b)] for integers below 2^53 in absolute value is the quotient
    truncated toward zero, and the division does not overflow. *)
Lemma to_int_round_ratio a b :
  Z.abs a < 2 ^ 53 -> 0 < b < 2 ^ 53 ->
  to_int (round_ratio a b) = Z.quot a b /\
  overflows (round_ratio a b) = false.
Proof.
  intros Ha Hb. unfold round_ratio, to_int, overflows.
  destruct (Z.ltb_spec b 0) as [?|_]; [lia|].
  destruct (Z.eqb_spec a 0) as [->|Hne]; [split; reflexivity|].
  destruct (Z.ltb_spec a 0) as [Hneg|Hpos].
  - destruct (to_int_round_pos (- a) b) as (Hq & Hn & Hd); [lia|lia|].
    cbv zeta. rewrite num_neg_mant.
    change (den {| mant := - mant (round_pos (- a) b);
                   expo := expo (round_pos (- a) b) |})
      with (den (round_pos (- a) b)).
    split.
    + rewrite Z.quot_opp_l by lia.
      rewrite Z.quot_div_nonneg by lia. rewrite Hq.
      rewrite <- (Z.quot_div_nonneg (- a) b) by lia.
      rewrite Z.quot_opp_l by lia. lia.
    + apply Z.leb_gt. lia.
  - destruct (to_int_round_pos a b) as (Hq & Hn & Hd); [lia|lia|].
    split.
    + rewrite !Z.quot_div_nonneg by lia. exact Hq.
    + apply Z.leb_gt. lia.
Qed.

Lemma round_pos_exact a b n j :
  0 < a -> 0 < b -> 0 <= j <= 1074 -> n < 2 ^ 53 ->
  a * 2 ^ j = n * b ->
  num (round_pos a b) * 2 ^ j = n * den (round_pos a b).
Proof.
  intros Ha Hb Hj Hn E.
  destruct (exponent_spec a b Ha Hb) as (Hlow & _).
  rewrite round_pos_unfold. cbv zeta.
  set (k := exponent a b) in *.
  assert (H2j : 0 < 2 ^ j) by (apply Z.pow_pos_nonneg; lia).
  assert (Hn0 : 0 < n) by nia.
  assert (Hkj : k + j <= 52).
  { destruct (Z.le_gt_cases (k + j) 52) as [?|Hbig]; [assumption|exfalso].
    assert (Hmono : 2 ^ 53 <= 2 ^ (k + j)) by (apply Z.pow_le_mono_r; lia).
    destruct (Z.le_gt_cases 0 k) as [Hk|Hk].
    - rewrite (pow2_nonneg k), (pow2_nonpos (- k)) in Hlow by lia.
      rewrite Z.pow_add_r in Hmono by lia.
      assert (0 < 2 ^ k) by (apply Z.pow_pos_nonneg; lia). nia.
    - rewrite (pow2_nonpos k), (pow2_nonneg (- k)) in Hlow by lia.
      assert (Ej : 2 ^ j = 2 ^ (k + j) * 2 ^ (- k))
        by (rewrite <- Z.pow_add_r by lia; f_equal; lia).
      assert (0 < 2 ^ (- k)) by (apply Z.pow_pos_nonneg; lia). nia. }
  set (e := Z.max (k - 52) (-1074)).
  assert (He : e <= - j) by (unfold e; lia).
  unfold num, den. cbn [mant expo].
  rewrite (pow2_nonpos e), (pow2_nonneg (- e)) by lia.
  rewrite !Z.mul_1_r.
  assert (Ee : 2 ^ (- e) = 2 ^ j * 2 ^ (- e - j))
    by (rewrite <- Z.pow_add_r by lia; f_equal; lia).
  rewrite (rhe_exact (a * 2 ^ (- e)) b (n * 2 ^ (- e - j))); [|lia|].
  - rewrite Ee. ring.
  - rewrite Ee. rewrite Z.mul_assoc, E. ring.
Qed.

Lemma den_pos x : 0 < den x.
Proof. apply pow2_pos. Qed.

(** A quotient that is a multiple of 2^-j with fewer than 53 bits is a
    double: rounding leaves it as it is. *)
Lemma round_ratio_exact a b n j :
  0 < b -> 0 <= j <= 1074 -> Z.abs n < 2 ^ 53 ->
  a * 2 ^ j = n * b ->
  num (round_ratio a b) * 2 ^ j = n * den (round_ratio a b).
Proof.
  intros Hb Hj Hn E. unfold round_ratio.
  assert (H2j : 0 < 2 ^ j) by (apply Z.pow_pos_nonneg; lia).
  destruct (Z.ltb_spec b 0) as [?|_]; [lia|].
  destruct (Z.eqb_spec a 0) as [->|Hne].
  - assert (n = 0) by nia. subst n. reflexivity.
  - destruct (Z.ltb_spec a 0) as [Hneg|Hpos]; cbv zeta.
    + rewrite num_neg_mant.
      change (den {| mant := - mant (round_pos (- a) b);
                     expo := expo (round_pos (- a) b) |})
        with (den (round_pos (- a) b)).
      assert (H : num (round_pos (- a) b) * 2 ^ j
                  = - n * den (round_pos (- a) b))
        by (apply round_pos_exact; lia).
      lia.
    + apply round_pos_exact; lia.
Qed.

Lemma exactly_of_int z : Z.abs z < 2 ^ 53 -> exactly (of_int z) z 0.
Proof.
  intros Hz. unfold exactly, of_int.
  apply round_ratio_exact; [lia|lia|assumption|lia].
Qed.

Lemma exactly_scale x n j i :
  0 <= j -> 0 <= i -> exactly x n j -> exactly x (n * 2 ^ i) (j + i).
Proof.
  unfold exactly. intros Hj Hi E. rewrite Z.pow_add_r by lia. nia.
Qed.

Lemma exactly_mul x y n1 j1 n2 j2 :
  0 <= j1 -> 0 <= j2 -> j1 + j2 <= 1074 -> Z.abs (n1 * n2) < 2 ^ 53 ->
  exactly x n1 j1 -> exactly y n2 j2 ->
  exactly (mul x y) (n1 * n2) (j1 + j2).
Proof.
  unfold exactly, mul. intros Hj1 Hj2 Hj Hn E1 E2.
  pose proof (den_pos x). pose proof (den_pos y).
  apply round_ratio_exact; [nia|lia|assumption|].
  rewrite Z.pow_add_r by lia.
  replace (num x * num y * (2 ^ j1 * 2 ^ j2))
    with (num x * 2 ^ j1 * (num y * 2 ^ j2)) by ring.
  rewrite E1, E2. ring.
Qed.

Lemma exactly_add x y n1 n2 j :
  0 <= j <= 1074 -> Z.abs (n1 + n2) < 2 ^ 53 ->
  exactly x n1 j -> exactly y n2 j -> exactly (add x y) (n1 + n2) j.
Proof.
  unfold exactly, add. intros Hj Hn E1 E2.
  pose proof (den_pos x). pose proof (den_pos y).
  apply round_ratio_exact; [nia|lia|assumption|]. nia.
Qed.

Lemma exactly_sub x y n1 n2 j :
  0 <= j <= 1074 -> Z.abs (n1 - n2) < 2 ^ 53 ->
  exactly x n1 j -> exactly y n2 j -> exactly (sub x y) (n1 - n2) j.
Proof.
  unfold exactly, sub. intros Hj Hn E1 E2.
  pose proof (den_pos x). pose proof (den_pos y).
  apply round_ratio_exact; [nia|lia|assumption|]. nia.
Qed.

Lemma to_int_exactly x n j :
  0 <= j -> exactly x n j -> to_int x = Z.quot n (2 ^ j).
Proof.
  unfold exactly, to_int. intros Hj E.
  pose proof (den_pos x).
  assert (H2j : 0 < 2 ^ j) by (apply Z.pow_pos_nonneg; lia).
  rewrite <- (Z.quot_mul_cancel_r (num x) (den x) (2 ^ j)) by lia.
  rewrite E. rewrite (Z.mul_comm (den x)).
  apply Z.quot_mul_cancel_r; lia.
Qed.

Lemma mul_zero_l y : mul zero y = zero.
Proof.
  unfold mul, round_ratio. change (num zero) with 0. rewrite Z.mul_0_l.
  destruct (den zero * den y <? 0); reflexivity.
Qed.

End DoubleFacts.

(** [int(a / b)] for integers below 2^53 in absolute value and a positive
    divisor is the quotient truncated toward zero. *)
Lemma int_truediv_small a b :
  Z.abs a < 2 ^ 53 -> 0 < b < 2 ^ 53 ->
  int_truediv a b = Ok (Z.quot a b).
Proof.
  intros Ha Hb. unfold int_truediv.
  destruct (DoubleFacts.to_int_round_ratio a b Ha Hb) as [Hq Hov].
  destruct (Z.eqb_spec b 0) as [?|_]; [lia|].
  rewrite Hov, Hq. reflexivity.
Qed.

Lemma to_int_round_ratio_nonneg a b :
  0 <= a -> 0 < b -> 0 <= Double.to_int (Double.round_ratio a b).
Proof.
  intros Ha Hb. unfold Double.to_int, Double.round_ratio.
  destruct (Z.ltb_spec b 0) as [?|_]; [lia|].
  destruct (Z.eqb_spec a 0) as [->|Hne]; [discriminate|].
  destruct (Z.ltb_spec a 0) as [?|_]; [lia|].
  apply Z.quot_pos; [|pose proof (DoubleFacts.den_pos (Double.round_pos a b)); lia].
  unfold Double.num, Double.round_pos. cbn [Double.mant Double.expo].
  apply Z.mul_nonneg_nonneg.
  - apply DoubleFacts.rhe_nonneg.
    + pose proof (DoubleFacts.pow2_pos
                    (- Z.max (Double.exponent a b - 52) (-1074))). nia.
    + pose proof (DoubleFacts.pow2_pos
                    (Z.max (Double.exponent a b - 52) (-1074))). nia.
  - pose proof (DoubleFacts.pow2_pos
                  (Z.max (Double.exponent a b - 52) (-1074))). lia.
Qed.

(** ** The 3x2 grid *)

Lemma cells_apart hm vm aw ah c r c' r' x y :
  0 <= hm -> 0 <= vm ->
  0 <= c < 3 -> 0 <= r < 2 -> 0 <= c' < 3 -> 0 <= r' < 2 ->
  c <> c' \/ r <> r' ->
  hm + c * (aw + hm) <= x < hm + c * (aw + hm) + aw ->
  vm + r * (ah + vm) <= y < vm + r * (ah + vm) + ah ->
  hm + c' * (aw + hm) <= x < hm + c' * (aw + hm) + aw ->
  vm + r' * (ah + vm) <= y < vm + r' * (ah + vm) + ah ->
  False.
Proof.
  intros Hhm Hvm Hc Hr Hc' Hr' Hne Hx Hy Hx' Hy'.
  assert (Ec : c = 0 \/ c = 1 \/ c = 2) by lia.
  assert (Ec' : c' = 0 \/ c' = 1 \/ c' = 2) by lia.
  assert (Er : r = 0 \/ r = 1) by lia.
  assert (Er' : r' = 0 \/ r' = 1) by lia.
  destruct Ec as [-> | [-> | ->]], Ec' as [-> | [-> | ->]],
           Er as [-> | ->], Er' as [-> | ->]; lia.
Qed.

Lemma margin_quot res margin_percent :
  Z.abs (res * margin_percent) < 2 ^ 53 ->
  Double.to_int (Double.round_ratio (res * margin_percent) 100)
  = Z.quot (res * margin_percent) 100.
Proof.
  intros Hsmall.
  apply DoubleFacts.to_int_round_ratio; [assumption|].
  split; [lia|]. vm_compute. reflexivity.
Qed.

(** C5, as stated, fails: the margin is truncated toward zero, not
    floored (width 1910 at -5% gives -95, the floor is -96), and it is
    taken from the double nearest to the quotient (width 1920 at
    10^16 + 1 percent). *)
Lemma margin_is_truncated_and_rounded :
  horizontal_margin (screen 1910 1080 32 (0, 8, 0)) (-5) = -95 /\
  margin_in_words 1910 (-5) = -96 /\
  horizontal_margin (screen 1920 1080 32 (0, 8, 0)) (10 ^ 16 + 1)
  = 192000000000000032 /\
  margin_in_words 1920 (10 ^ 16 + 1) = 192000000000000019.
Proof. vm_compute. repeat split. Qed.

(** C5, amended: where width * margin_percent and height * margin_percent
    are below 2^53 in absolute value, the margins are these products
    divided by 100 and truncated toward zero, which is the floor for a
    margin that is not negative; the cell size is the floor the spec gives;
    on 1920x1080 with 5% the four values are 96, 54, 512 and 459; and for a
    margin that is not negative the six cells at the origins
    (h_margin + (i mod 3) * (cell_width + h_margin),
    v_margin + (i div 3) * (cell_height + v_margin)) have no pixel in
    common. *)
Theorem grid_cells var_info margin_percent :
  0 <= xres var_info -> 0 <= yres var_info ->
  Z.abs (xres var_info * margin_percent) < 2 ^ 53 ->
  Z.abs (yres var_info * margin_percent) < 2 ^ 53 ->
  let h_margin := horizontal_margin var_info margin_percent in
  let v_margin := vertical_margin var_info margin_percent in
  let cell_width := available_width var_info margin_percent in
  let cell_height := available_height var_info margin_percent in
  h_margin = Z.quot (xres var_info * margin_percent) 100 /\
  v_margin = Z.quot (yres var_info * margin_percent) 100 /\
  (0 <= margin_percent ->
   h_margin = xres var_info * margin_percent / 100 /\
   v_margin = yres var_info * margin_percent / 100) /\
  cell_width = (xres var_info - 4 * h_margin) / 3 /\
  cell_height = (yres var_info - 3 * v_margin) / 2 /\
  (forall i,
     cell_origin var_info margin_percent i
     = (h_margin + (i mod 3) * (cell_width + h_margin),
        v_margin + (i / 3) * (cell_height + v_margin))) /\
  (0 <= margin_percent ->
   forall i j x y,
     0 <= i < 6 -> 0 <= j < 6 -> i <> j ->
     in_cell var_info margin_percent i x y ->
     ~ in_cell var_info margin_percent j x y) /\
  (xres var_info = 1920 -> yres var_info = 1080 -> margin_percent = 5 ->
   h_margin = 96 /\ v_margin = 54 /\ cell_width = 512 /\ cell_height = 459).
Proof.
  intros Hx Hy Hxs Hys h_margin v_margin cell_width cell_height.
  assert (Hh : h_margin = Z.quot (xres var_info * margin_percent) 100)
    by (apply margin_quot; assumption).
  assert (Hv : v_margin = Z.quot (yres var_info * margin_percent) 100)
    by (apply margin_quot; assumption).
  split; [exact Hh|]. split; [exact Hv|]. split.
  { intros Hm. rewrite Hh, Hv. split; apply Z.quot_div_nonneg; lia. }
  split; [reflexivity|]. split; [reflexivity|]. split; [reflexivity|].
  split.
  - intros Hm i j x y Hi Hj Hij. unfold in_cell, cell_origin.
    fold h_margin v_margin cell_width cell_height.
    intros [Hix Hiy] [Hjx Hjy].
    assert (0 <= h_margin) by (rewrite Hh; apply Z.quot_pos; lia).
    assert (0 <= v_margin) by (rewrite Hv; apply Z.quot_pos; lia).
    apply (cells_apart h_margin v_margin cell_width cell_height
             (i mod 3) (i / 3) (j mod 3) (j / 3) x y);
      try assumption; divlia.
  - intros Ex Ey Em.
    assert (E1 : h_margin = 96) by (rewrite Hh, Ex, Em; reflexivity).
    assert (E2 : v_margin = 54) by (rewrite Hv, Ey, Em; reflexivity).
    repeat split; try assumption.
    + unfold cell_width, available_width. fold h_margin.
      rewrite E1, Ex. reflexivity.
    + unfold cell_height, available_height. fold v_margin.
      rewrite E2, Ey. reflexivity.
Qed.

Lemma grid_cells_witness :
  let var_info := screen 1920 1080 32 (0, 8, 0) in
  let h_margin := horizontal_margin var_info 5 in
  let v_margin := vertical_margin var_info 5 in
  let cell_width := available_width var_info 5 in
  let cell_height := available_height var_info 5 in
  h_margin = Z.quot (xres var_info * 5) 100 /\
  v_margin = Z.quot (yres var_info * 5) 100 /\
  (0 <= 5 ->
   h_margin = xres var_info * 5 / 100 /\
   v_margin = yres var_info * 5 / 100) /\
  cell_width = (xres var_info - 4 * h_margin) / 3 /\
  cell_height = (yres var_info - 3 * v_margin) / 2 /\
  (forall i,
     cell_origin var_info 5 i
     = (h_margin + (i mod 3) * (cell_width + h_margin),
        v_margin + (i / 3) * (cell_height + v_margin))) /\
  (0 <= 5 ->
   forall i j x y,
     0 <= i < 6 -> 0 <= j < 6 -> i <> j ->
     in_cell var_info 5 i x y -> ~ in_cell var_info 5 j x y) /\
  (xres var_info = 1920 -> yres var_info = 1080 -> 5 = 5 ->
   h_margin = 96 /\ v_margin = 54 /\ cell_width = 512 /\ cell_height = 459).
Proof.
  apply (grid_cells (screen 1920 1080 32 (0, 8, 0)) 5).
  - simpl. lia.
  - simpl. lia.
  - vm_compute. reflexivity.
  - vm_compute. reflexivity.
Defined.

(** C6: with a number of paths other than six the script raises its
    ValueError first: no query is sent, no image is opened, no layout or
    buffer is built, the device receives nothing, and the handler prints
    the error. *)
Theorem six_images_required (L : ImageLibrary) image_paths fb_file
  margin_percent w :
  length image_paths <> 6%nat ->
  display_six_images_body image_paths fb_file margin_percent w
  = (Raise (ValueError six_paths_message), w) /\
  fst (display_six_images image_paths fb_file margin_percent w) = Ok tt /\
  syscalls (snd (display_six_images image_paths fb_file margin_percent w))
  = syscalls w /\
  stdout (snd (display_six_images image_paths fb_file margin_percent w))
  = stdout w ++ [ErrorMessage (ValueError six_paths_message)].
Proof.
  intros Hlen.
  assert (Hbody : display_six_images_body image_paths fb_file margin_percent w
                  = (Raise (ValueError six_paths_message), w)).
  { unfold display_six_images_body.
    apply Nat.eqb_neq in Hlen. rewrite Hlen. reflexivity. }
  split; [exact Hbody|].
  unfold display_six_images, try_except. rewrite Hbody.
  repeat split.
Qed.

Lemma six_images_required_witness :
  let w := world (screen 1920 1080 32 (0, 8, 0)) [] in
  let paths := ["a"; "b"; "c"; "d"; "e"]%string in
  display_six_images_body (L := test_library) paths "/dev/fb0" 5 w
  = (Raise (ValueError six_paths_message), w) /\
  fst (display_six_images (L := test_library) paths "/dev/fb0" 5 w) = Ok tt /\
  syscalls (snd (display_six_images (L := test_library) paths "/dev/fb0" 5 w))
  = syscalls w /\
  stdout (snd (display_six_images (L := test_library) paths "/dev/fb0" 5 w))
  = stdout w ++ [ErrorMessage (ValueError six_paths_message)].
Proof.
  apply (six_images_required test_library
           ["a"; "b"; "c"; "d"; "e"]%string "/dev/fb0" 5
           (world (screen 1920 1080 32 (0, 8, 0)) [])).
  simpl. lia.
Defined.

(** ** The dual layout *)


Lemma Image_resize_positive (L : ImageLibrary) img size :
  0 < fst size -> 0 < snd size ->
  Image_resize img size = Ok (resize img size).
Proof.
  intros Hw Hh. unfold Image_resize.
  apply Z.ltb_lt in Hw, Hh. rewrite Hw, Hh. reflexivity.
Qed.

Lemma Image_resize_ok (L : ImageLibrary) img size resized :
  Image_resize img size = Ok resized -> resized = resize img size.
Proof.
  unfold Image_resize.
  destruct ((0 <? fst size) && (0 <? snd size)); [|discriminate].
  intros E. injection E as <-. reflexivity.
Qed.

Lemma covers_spec src box x y :
  PIL.covers src box x y = true <->
  fst box <= x < fst box + PIL.width src /\
  snd box <= y < snd box + PIL.height src.
Proof.
  unfold PIL.covers. rewrite !andb_true_iff, !Z.leb_le, !Z.ltb_lt. lia.
Qed.




(** C10: in the dual layout every pixel of the canvas that neither copy
    covers is black, the colour a canvas is created with when none is
    given; so is every row from new_height down. *)
Theorem dual_background (L : ImageLibrary) var_info image combined :
  resize_has_size L ->
  dual_compose var_info image = Ok combined ->
  exists nh,
    new_height var_info image = Ok nh /\
    PIL.width combined = xres var_info /\
    PIL.height combined = yres var_info /\
    (forall x y,
       ~ (0 <= x < new_width var_info /\ 0 <= y < nh) ->
       ~ (new_width var_info <= x < 2 * new_width var_info /\ 0 <= y < nh) ->
       PIL.getpixel combined x y = (0, 0, 0)) /\
    (forall x y, nh <= y -> PIL.getpixel combined x y = (0, 0, 0)).
Proof.
  intros Hsize Hc. unfold dual_compose in Hc.
  destruct (new_height var_info image) as [nh|e] eqn:Hnh;
    [|discriminate Hc].
  cbn [bind] in Hc.
  destruct (Image_resize image (new_width var_info, nh)) as [resized|e]
    eqn:Hres; [|discriminate Hc].
  apply Image_resize_ok in Hres. subst resized.
  cbn [bind] in Hc. injection Hc as <-.
  exists nh. split; [reflexivity|]. split; [reflexivity|].
  split; [reflexivity|].
  destruct (Hsize image (new_width var_info, nh)) as [Hrw Hrh].
  simpl in Hrw, Hrh.
  assert (Hblack : forall x y,
            ~ (0 <= x < new_width var_info /\ 0 <= y < nh) ->
            ~ (new_width var_info <= x < 2 * new_width var_info
               /\ 0 <= y < nh) ->
            PIL.getpixel
              (PIL.paste
                 (PIL.paste
                    (PIL.new (xres var_info, yres var_info) PIL.default_color)
                    (resize image (new_width var_info, nh)) (0, 0))
                 (resize image (new_width var_info, nh))
                 (new_width var_info, 0)) x y = (0, 0, 0)).
  { intros x y H1 H2. cbn [PIL.paste PIL.getpixel].
    assert (C1 : PIL.covers (resize image (new_width var_info, nh))
                   (new_width var_info, 0) x y = false).
    { apply not_true_is_false. rewrite covers_spec, Hrw, Hrh. simpl. lia. }
    assert (C2 : PIL.covers (resize image (new_width var_info, nh))
                   (0, 0) x y = false).
    { apply not_true_is_false. rewrite covers_spec, Hrw, Hrh. simpl. lia. }
    rewrite C1, C2. reflexivity. }
  split; [exact Hblack|].
  intros x y Hy. apply Hblack; lia.
Qed.

Lemma dual_background_witness :
  exists nh,
    new_height (screen 1280 720 32 (0, 8, 0)) test_image = Ok nh /\
    PIL.width
      (PIL.paste
         (PIL.paste (PIL.new (1280, 720) PIL.default_color)
            (nearest test_image (640, 480)) (0, 0))
         (nearest test_image (640, 480)) (640, 0)) = 1280 /\
    PIL.height
      (PIL.paste
         (PIL.paste (PIL.new (1280, 720) PIL.default_color)
            (nearest test_image (640, 480)) (0, 0))
         (nearest test_image (640, 480)) (640, 0)) = 720 /\
    (forall x y,
       ~ (0 <= x < 640 /\ 0 <= y < nh) ->
       ~ (640 <= x < 2 * 640 /\ 0 <= y < nh) ->
       PIL.getpixel
         (PIL.paste
            (PIL.paste (PIL.new (1280, 720) PIL.default_color)
               (nearest test_image (640, 480)) (0, 0))
            (nearest test_image (640, 480)) (640, 0)) x y = (0, 0, 0)) /\
    (forall x y, nh <= y ->
       PIL.getpixel
         (PIL.paste
            (PIL.paste (PIL.new (1280, 720) PIL.default_color)
               (nearest test_image (640, 480)) (0, 0))
            (nearest test_image (640, 480)) (640, 0)) x y = (0, 0, 0)).
Proof.
  apply (dual_background test_library (screen 1280 720 32 (0, 8, 0))
           test_image
           (PIL.paste
              (PIL.paste (PIL.new (1280, 720) PIL.default_color)
                 (nearest test_image (640, 480)) (0, 0))
              (nearest test_image (640, 480)) (640, 0))).
  - intros im size. split; reflexivity.
  - reflexivity.
Defined.

(** ** The frame write *)

(** C9, as stated, fails: when the system takes 2 of 4 bytes the write does
    not fail; the last two bytes are offered again at offset 2. *)
Lemma short_write_is_reissued :
  let w := world (screen 1 1 32 (0, 8, 0)) [Accepted 2] in
  short_write_reported [3; 2; 1; 255] w /\
  fst (write_frame [3; 2; 1; 255] w) = Ok tt /\
  syscalls (snd (write_frame [3; 2; 1; 255] w))
  = [(0, [3; 2; 1; 255]); (2, [1; 255])] /\
  ~ fails_without_reissue [3; 2; 1; 255] w.
Proof.
  cbv zeta. split; [|split; [|split]].
  - exists 2%nat, []. split; [reflexivity|]. simpl. lia.
  - reflexivity.
  - reflexivity.
  - intros [[e He] _]. discriminate He.
Qed.

Lemma write_frame_unfold image_bytes w :
  write_frame image_bytes w
  = (fst (fst (write_all (os_replies w) 0 image_bytes)),
     {| ioctl_var := ioctl_var w; ioctl_fix := ioctl_fix w;
        os_replies := snd (fst (write_all (os_replies w) 0 image_bytes));
        syscalls :=
          syscalls w ++ snd (write_all (os_replies w) 0 image_bytes);
        stdout := stdout w |}).
Proof.
  unfold write_frame.
  destruct (write_all (os_replies w) 0 image_bytes) as [[r rest] calls].
  reflexivity.
Qed.

(** The calls of one write start with the whole buffer at the position the
    file was opened at. *)
Lemma write_all_first replies pos image_bytes :
  image_bytes <> [] ->
  exists calls,
    snd (write_all replies pos image_bytes) = (pos, image_bytes) :: calls.
Proof.
  intros Hne. destruct image_bytes as [|b image_bytes]; [contradiction|].
  destruct replies as [|[n|errno] replies]; cbn [write_all].
  - exists []. reflexivity.
  - destruct (write_all replies _ _) as [[r rest] calls].
    exists calls. reflexivity.
  - destruct (errno =? EINTR).
    + destruct (write_all replies _ _) as [[r rest] calls].
      exists calls. reflexivity.
    + exists []. reflexivity.
Qed.

(** C9, amended: every frame write offers the entire encoded buffer to the
    device at offset 0; when the system takes it whole that is the only
    call; when the system reports an I/O failure other than an interrupted
    call the write fails with that error and nothing is offered again; when
    the system takes only a part, that is no failure, and the rest is
    offered at the offset reached; an interrupted call is made again at the
    same offset. *)
Theorem write_frame_contract image_bytes w :
  image_bytes <> [] ->
  (exists calls,
     syscalls (snd (write_frame image_bytes w))
     = syscalls w ++ (0, image_bytes) :: calls) /\
  (os_replies w = [] \/
   (exists n replies, os_replies w = Accepted n :: replies /\
                      (length image_bytes <= n)%nat) ->
   fst (write_frame image_bytes w) = Ok tt /\
   syscalls (snd (write_frame image_bytes w))
   = syscalls w ++ [(0, image_bytes)]) /\
  (forall errno replies,
     os_replies w = Failed errno :: replies ->
     errno <> EINTR ->
     fst (write_frame image_bytes w) = Raise (OSError errno) /\
     syscalls (snd (write_frame image_bytes w))
     = syscalls w ++ [(0, image_bytes)]) /\
  (forall n replies,
     os_replies w = Accepted n :: replies ->
     (0 < n < length image_bytes)%nat ->
     exists calls,
       syscalls (snd (write_frame image_bytes w))
       = syscalls w ++ (0, image_bytes)
                    :: (Z.of_nat n, skipn n image_bytes) :: calls) /\
  (forall replies,
     os_replies w = Failed EINTR :: replies ->
     exists calls,
       syscalls (snd (write_frame image_bytes w))
       = syscalls w ++ (0, image_bytes) :: (0, image_bytes) :: calls).
Proof.
  intros Hne. rewrite write_frame_unfold. cbn [fst snd syscalls].
  split; [|split; [|split; [|split]]].
  - destruct (write_all_first (os_replies w) 0 image_bytes Hne) as [calls Hc].
    exists calls. rewrite Hc. reflexivity.
  - destruct image_bytes as [|b image_bytes]; [contradiction|].
    intros [E|(n & replies & E & Hn)]; rewrite E; cbn [write_all].
    + split; reflexivity.
    + rewrite Nat.min_r by exact Hn.
      rewrite skipn_all. destruct replies; split; reflexivity.
  - intros errno replies E Herr. rewrite E.
    destruct image_bytes as [|b image_bytes]; [contradiction|].
    cbn [write_all]. apply Z.eqb_neq in Herr. rewrite Herr.
    split; reflexivity.
  - intros n replies E Hn. rewrite E.
    destruct image_bytes as [|b image_bytes]; [contradiction|].
    cbn [write_all]. rewrite Nat.min_l by lia.
    assert (Hrest : skipn n (b :: image_bytes) <> []).
    { intros Hnil. apply (f_equal (@length Z)) in Hnil.
      rewrite length_skipn in Hnil.
      change (length (@nil Z)) with 0%nat in Hnil. lia. }
    destruct (write_all_first replies (0 + Z.of_nat n)
                (skipn n (b :: image_bytes)) Hrest) as [calls Hc].
    destruct (write_all replies (0 + Z.of_nat n)
                (skipn n (b :: image_bytes))) as [[r rest] calls'].
    simpl in Hc. subst calls'. exists calls. reflexivity.
  - intros replies E. rewrite E.
    destruct (write_all_first replies 0 image_bytes Hne) as [calls Hc].
    destruct image_bytes as [|b image_bytes]; [contradiction|].
    cbn [write_all]. change (EINTR =? EINTR) with true. cbv iota.
    destruct (write_all replies 0 (b :: image_bytes)) as [[r rest] calls'].
    simpl in Hc. subst calls'. exists calls. reflexivity.
Qed.

Lemma write_frame_contract_witness :
  let image_bytes := [3; 2; 1; 255] in
  let w := world (screen 1 1 32 (0, 8, 0)) [Failed 5] in
  (exists calls,
     syscalls (snd (write_frame image_bytes w))
     = syscalls w ++ (0, image_bytes) :: calls) /\
  (os_replies w = [] \/
   (exists n replies, os_replies w = Accepted n :: replies /\
                      (length image_bytes <= n)%nat) ->
   fst (write_frame image_bytes w) = Ok tt /\
   syscalls (snd (write_frame image_bytes w))
   = syscalls w ++ [(0, image_bytes)]) /\
  (forall errno replies,
     os_replies w = Failed errno :: replies ->
     errno <> EINTR ->
     fst (write_frame image_bytes w) = Raise (OSError errno) /\
     syscalls (snd (write_frame image_bytes w))
     = syscalls w ++ [(0, image_bytes)]) /\
  (forall n replies,
     os_replies w = Accepted n :: replies ->
     (0 < n < length image_bytes)%nat ->
     exists calls,
       syscalls (snd (write_frame image_bytes w))
       = syscalls w ++ (0, image_bytes)
                    :: (Z.of_nat n, skipn n image_bytes) :: calls) /\
  (forall replies,
     os_replies w = Failed EINTR :: replies ->
     exists calls,
       syscalls (snd (write_frame image_bytes w))
       = syscalls w ++ (0, image_bytes) :: (0, image_bytes) :: calls).
Proof.
  apply (write_frame_contract [3; 2; 1; 255]
           (world (screen 1 1 32 (0, 8, 0)) [Failed 5])).
  discriminate.
Defined.

(** * Further properties of the scripts *)

(** ** The layout of the encoded buffer *)

Lemma encode_pixel_bytes var_info frame :
  encode var_info frame = Ok (flat_map (pixel_bytes var_info) (pixels frame)).
Proof.
  unfold pixel_bytes.
  destruct (Z.eqb_spec (bits_per_pixel var_info) 32) as [H32|H32].
  - apply encode_32. assumption.
  - destruct (Z.eqb_spec (bits_per_pixel var_info) 16) as [H16|H16].
    + apply encode_16. assumption.
    + apply encode_raw; assumption.
Qed.

Lemma length_pixel_bytes var_info p :
  length (pixel_bytes var_info p) = pixel_size var_info.
Proof.
  unfold pixel_bytes, pixel_size, bytes32, bytes24. destruct p as [[r g] b].
  destruct (bits_per_pixel var_info =? 32).
  - destruct (getitem (blue var_info) 2 =? 0); reflexivity.
  - destruct (bits_per_pixel var_info =? 16); reflexivity.
Qed.

Lemma length_encoded var_info frame w h :
  has_shape frame w h ->
  length (flat_map (pixel_bytes var_info) (pixels frame))
  = (pixel_size var_info * (w * h))%nat.
Proof.
  intros Hshape.
  rewrite (length_flat_map_const _ (pixel_size var_info))
    by (intros; apply length_pixel_bytes).
  rewrite (length_pixels frame w h) by assumption. reflexivity.
Qed.

(** X1: the conversion never raises on an RGB raster, and the buffer of a
    w x h frame has 4 * w * h bytes at 32 bits per pixel, 2 * w * h at 16
    and 3 * w * h at any other depth. *)
Theorem encode_length var_info frame w h :
  has_shape frame w h ->
  exists image_bytes,
    encode var_info frame = Ok image_bytes /\
    length image_bytes = (pixel_size var_info * (w * h))%nat /\
    (bits_per_pixel var_info = 32 -> length image_bytes = (4 * w * h)%nat) /\
    (bits_per_pixel var_info = 16 -> length image_bytes = (2 * w * h)%nat) /\
    (bits_per_pixel var_info <> 32 -> bits_per_pixel var_info <> 16 ->
     length image_bytes = (3 * w * h)%nat).
Proof.
  intros Hshape. eexists. split; [apply encode_pixel_bytes|].
  assert (Hlen : length (flat_map (pixel_bytes var_info) (pixels frame))
                 = (pixel_size var_info * (w * h))%nat)
    by (apply length_encoded; assumption).
  split; [exact Hlen|]. rewrite Hlen. unfold pixel_size.
  split; [|split].
  - intros ->. simpl. lia.
  - intros ->. simpl. lia.
  - intros H32 H16. apply Z.eqb_neq in H32, H16. rewrite H32, H16. lia.
Qed.

Lemma encode_length_witness :
  let var_info := screen 2 1 32 (0, 8, 0) in
  exists image_bytes,
    encode var_info [[(1, 2, 3); (4, 5, 6)]] = Ok image_bytes /\
    length image_bytes = (pixel_size var_info * (2 * 1))%nat /\
    (bits_per_pixel var_info = 32 -> length image_bytes = (4 * 2 * 1)%nat) /\
    (bits_per_pixel var_info = 16 -> length image_bytes = (2 * 2 * 1)%nat) /\
    (bits_per_pixel var_info <> 32 -> bits_per_pixel var_info <> 16 ->
     length image_bytes = (3 * 2 * 1)%nat).
Proof.
  apply (encode_length (screen 2 1 32 (0, 8, 0)) [[(1, 2, 3); (4, 5, 6)]] 2 1).
  split; [reflexivity|]. repeat constructor.
Defined.

Lemma skipn_app_length {A} (l1 l2 : list A) m :
  skipn (length l1 + m) (l1 ++ l2) = skipn m l2.
Proof.
  induction l1 as [|a l1 IH]; simpl; [reflexivity|exact IH].
Qed.

Lemma firstn_app_length {A} (l1 l2 : list A) :
  firstn (length l1) (l1 ++ l2) = l1.
Proof.
  induction l1 as [|a l1 IH]; simpl; [reflexivity|]. now rewrite IH.
Qed.

Lemma flat_map_chunk {A B} (f : A -> list B) (k : nat) l i a :
  (forall a, length (f a) = k) ->
  nth_error l i = Some a ->
  firstn k (skipn (k * i) (flat_map f l)) = f a.
Proof.
  intros Hk. revert i. induction l as [|a0 l IH]; intros i Hi.
  - destruct i; discriminate Hi.
  - destruct i as [|i]; simpl in Hi.
    + injection Hi as ->. rewrite Nat.mul_0_r. cbn [skipn flat_map].
      rewrite <- (Hk a). apply firstn_app_length.
    + cbn [flat_map].
      replace (k * S i)%nat with (length (f a0) + k * i)%nat
        by (rewrite Hk; lia).
      rewrite skipn_app_length. apply IH. assumption.
Qed.

Lemma pixels_nth frame w x y p :
  Forall (fun row => length row = w) frame ->
  (x < w)%nat ->
  pixel_at frame x y = Some p ->
  nth_error (pixels frame) (y * w + x) = Some p.
Proof.
  unfold pixel_at, pixels. intros Hw Hx. revert y.
  induction Hw as [|row frame Hrow _ IH]; intros y Hp.
  - destruct y; discriminate Hp.
  - destruct y as [|y]; simpl in Hp |- *.
    + rewrite nth_error_app1 by lia. exact Hp.
    + rewrite nth_error_app2 by lia.
      replace (w + y * w + x - length row)%nat with (y * w + x)%nat by lia.
      apply IH. exact Hp.
Qed.

(** X2: the buffer is row-major and tightly packed: the pixel in column x
    of row y occupies the [pixel_size] bytes from offset
    pixel_size * (y * width + x) on.  At 32 bits per pixel these are the
    triplet, reversed or not, and then 255. *)
Theorem encode_pixel_offset var_info frame w h x y p :
  has_shape frame w h ->
  (x < w)%nat ->
  pixel_at frame x y = Some p ->
  exists image_bytes,
    encode var_info frame = Ok image_bytes /\
    firstn (pixel_size var_info)
      (skipn (pixel_size var_info * (y * w + x)) image_bytes)
    = pixel_bytes var_info p /\
    (bits_per_pixel var_info = 32 ->
     nth_error image_bytes (4 * (y * w + x) + 3) = Some 255).
Proof.
  intros [_ Hw] Hx Hp. eexists. split; [apply encode_pixel_bytes|].
  assert (Hchunk :
    firstn (pixel_size var_info)
      (skipn (pixel_size var_info * (y * w + x))
         (flat_map (pixel_bytes var_info) (pixels frame)))
    = pixel_bytes var_info p).
  { apply flat_map_chunk.
    - intros a. apply length_pixel_bytes.
    - apply (pixels_nth frame w); assumption. }
  split; [exact Hchunk|].
  intros H32.
  assert (Hsize : pixel_size var_info = 4%nat)
    by (unfold pixel_size; rewrite H32; reflexivity).
  rewrite Hsize in Hchunk.
  assert (Hnth : nth_error (pixel_bytes var_info p) 3 = Some 255).
  { unfold pixel_bytes, bytes32. rewrite H32. simpl (32 =? 32).
    destruct p as [[r g] b].
    destruct (getitem (blue var_info) 2 =? 0); reflexivity. }
  rewrite <- Hchunk in Hnth.
  rewrite nth_error_firstn in Hnth.
  change (3 <? 4)%nat with true in Hnth. cbv iota in Hnth.
  rewrite nth_error_skipn in Hnth. exact Hnth.
Qed.

Lemma encode_pixel_offset_witness :
  let var_info := screen 2 1 32 (0, 8, 0) in
  exists image_bytes,
    encode var_info [[(1, 2, 3); (4, 5, 6)]] = Ok image_bytes /\
    firstn (pixel_size var_info)
      (skipn (pixel_size var_info * (0 * 2 + 1)) image_bytes)
    = pixel_bytes var_info (4, 5, 6) /\
    (bits_per_pixel var_info = 32 ->
     nth_error image_bytes (4 * (0 * 2 + 1) + 3) = Some 255).
Proof.
  apply (encode_pixel_offset (screen 2 1 32 (0, 8, 0))
           [[(1, 2, 3); (4, 5, 6)]] 2 1 1 0 (4, 5, 6)).
  - split; [reflexivity|]. repeat constructor.
  - lia.
  - reflexivity.
Defined.

(** ** The grid on the screen *)

(** X3: for a non-negative margin every cell of the grid lies on the
    screen and keeps the margin free on all four sides. *)
Theorem grid_cells_inside_screen var_info margin_percent i x y :
  0 <= xres var_info -> 0 <= yres var_info -> 0 <= margin_percent ->
  0 <= i < 6 ->
  in_cell var_info margin_percent i x y ->
  horizontal_margin var_info margin_percent <= x
    < xres var_info - horizontal_margin var_info margin_percent /\
  vertical_margin var_info margin_percent <= y
    < yres var_info - vertical_margin var_info margin_percent.
Proof.
  intros Hx Hy Hm Hi. unfold in_cell, cell_origin. cbv beta iota zeta.
  set (hm := horizontal_margin var_info margin_percent).
  set (vm := vertical_margin var_info margin_percent).
  assert (Hhm : 0 <= hm) by (apply to_int_round_ratio_nonneg; lia).
  assert (Hvm : 0 <= vm) by (apply to_int_round_ratio_nonneg; lia).
  assert (Haw : 3 * available_width var_info margin_percent
                <= xres var_info - 4 * hm)
    by (unfold available_width; fold hm; divlia).
  assert (Hah : 2 * available_height var_info margin_percent
                <= yres var_info - 3 * vm)
    by (unfold available_height; fold vm; divlia).
  set (aw := available_width var_info margin_percent) in *.
  set (ah := available_height var_info margin_percent) in *.
  assert (Ec : i mod 3 = 0 \/ i mod 3 = 1 \/ i mod 3 = 2) by divlia.
  assert (Er : i / 3 = 0 \/ i / 3 = 1) by divlia.
  destruct Ec as [-> | [-> | ->]], Er as [-> | ->]; intros [Hcx Hcy]; lia.
Qed.

Lemma grid_cells_inside_screen_witness :
  let var_info := screen 1920 1080 32 (0, 8, 0) in
  horizontal_margin var_info 5 <= 1000
    < xres var_info - horizontal_margin var_info 5 /\
  vertical_margin var_info 5 <= 600
    < yres var_info - vertical_margin var_info 5.
Proof.
  apply (grid_cells_inside_screen (screen 1920 1080 32 (0, 8, 0)) 5 4
           1000 600).
  - simpl. lia.
  - simpl. lia.
  - lia.
  - lia.
  - vm_compute. repeat split; discriminate.
Defined.

(** X4: an image no larger than its cell is pasted inside the cell and
    centred in it: the free strips on either side differ by at most one
    pixel. *)
Theorem paste_offset_centres var_info margin_percent i new_size :
  fst new_size <= available_width var_info margin_percent ->
  snd new_size <= available_height var_info margin_percent ->
  let '(x0, y0) := cell_origin var_info margin_percent i in
  let '(x_offset, y_offset) :=
    paste_offset var_info margin_percent i new_size in
  let right := x0 + available_width var_info margin_percent
               - (x_offset + fst new_size) in
  let below := y0 + available_height var_info margin_percent
               - (y_offset + snd new_size) in
  0 <= x_offset - x0 <= right /\ right <= x_offset - x0 + 1 /\
  0 <= y_offset - y0 <= below /\ below <= y_offset - y0 + 1.
Proof.
  intros Hw Hh. unfold paste_offset.
  destruct (cell_origin var_info margin_percent i) as [x0 y0].
  cbv zeta. repeat split; divlia.
Qed.

Lemma paste_offset_centres_witness :
  let var_info := screen 1920 1080 32 (0, 8, 0) in
  let '(x0, y0) := cell_origin var_info 5 4 in
  let '(x_offset, y_offset) := paste_offset var_info 5 4 (459, 459) in
  let right := x0 + available_width var_info 5 - (x_offset + 459) in
  let below := y0 + available_height var_info 5 - (y_offset + 459) in
  0 <= x_offset - x0 <= right /\ right <= x_offset - x0 + 1 /\
  0 <= y_offset - y0 <= below /\ below <= y_offset - y0 + 1.
Proof.
  apply (paste_offset_centres (screen 1920 1080 32 (0, 8, 0)) 5 4 (459, 459)).
  - vm_compute. discriminate.
  - vm_compute. discriminate.
Defined.

Lemma covers_in_cell (L : ImageLibrary) var_info margin_percent i img
  new_size x y :
  resize_has_size L ->
  fst new_size <= available_width var_info margin_percent ->
  snd new_size <= available_height var_info margin_percent ->
  PIL.covers (resize img new_size)
    (paste_offset var_info margin_percent i new_size) x y = true ->
  in_cell var_info margin_percent i x y.
Proof.
  intros Hsize Hw Hh Hc. apply covers_spec in Hc.
  destruct (Hsize img new_size) as [Ew Eh]. rewrite Ew, Eh in Hc.
  unfold in_cell. unfold paste_offset in Hc.
  destruct (cell_origin var_info margin_percent i) as [x0 y0].
  simpl fst in Hc. simpl snd in Hc. divlia.
Qed.

Lemma paste_images_keeps (L : ImageLibrary) var_info margin_percent x y :
  resize_has_size L ->
  (forall w h img size, fit_size w h img = Ok size ->
     fst size <= w /\ snd size <= h) ->
  forall image_paths i layout layout',
    paste_images var_info margin_percent i image_paths layout = Ok layout' ->
    (forall k, i <= k < i + Z.of_nat (length image_paths) ->
       ~ in_cell var_info margin_percent k x y) ->
    PIL.width layout' = PIL.width layout /\
    PIL.height layout' = PIL.height layout /\
    PIL.getpixel layout' x y = PIL.getpixel layout x y.
Proof.
  intros Hsize Hfit. induction image_paths as [|p ps IH];
    intros i layout layout' Hrun Hout.
  - simpl in Hrun. injection Hrun as <-. repeat split.
  - cbn [paste_images] in Hrun.
    destruct (Image_open p) as [img|e]; [|discriminate Hrun].
    cbn [bind] in Hrun.
    destruct (fit_size _ _ img) as [new_size|e] eqn:Hfs; [|discriminate Hrun].
    cbn [bind] in Hrun.
    destruct (Image_resize img new_size) as [resized|e] eqn:Hres;
      [|discriminate Hrun].
    apply Image_resize_ok in Hres. subst resized.
    cbn [bind] in Hrun.
    apply IH in Hrun.
    + destruct Hrun as (Ew & Eh & Ep). rewrite Ew, Eh, Ep.
      split; [reflexivity|]. split; [reflexivity|].
      cbn [PIL.paste PIL.getpixel].
      destruct (PIL.covers _ _ x y) eqn:Hc; [|reflexivity].
      exfalso. apply (Hout i).
      * cbn [length]. lia.
      * destruct (Hfit _ _ _ _ Hfs) as [Hw Hh].
        apply (covers_in_cell L var_info margin_percent i img new_size);
          assumption.
    + intros k Hk. apply Hout. cbn [length]. lia.
Qed.

(** X5: the layout of the grid has the size of the screen, and a pixel in
    none of the cells of the images pasted is black.  The scale the float
    unit computes is only assumed not to exceed the cell. *)
Theorem grid_margins_stay_black (L : ImageLibrary) var_info margin_percent
  image_paths layout x y :
  resize_has_size L ->
  (forall w h img size, fit_size w h img = Ok size ->
     fst size <= w /\ snd size <= h) ->
  grid_compose var_info margin_percent image_paths = Ok layout ->
  (forall i, 0 <= i < Z.of_nat (length image_paths) ->
     ~ in_cell var_info margin_percent i x y) ->
  PIL.width layout = xres var_info /\
  PIL.height layout = yres var_info /\
  PIL.getpixel layout x y = (0, 0, 0).
Proof.
  intros Hsize Hfit Hrun Hout. unfold grid_compose in Hrun.
  destruct (int_truediv (xres var_info * margin_percent) 100);
    [|discriminate Hrun].
  destruct (int_truediv (yres var_info * margin_percent) 100);
    [|discriminate Hrun].
  cbn [bind] in Hrun.
  apply (paste_images_keeps L var_info margin_percent x y Hsize Hfit)
    in Hrun; [exact Hrun|].
  intros k Hk. apply Hout. lia.
Qed.

Lemma grid_margins_stay_black_witness :
  let var_info := screen 1920 1080 32 (0, 8, 0) in
  exists layout,
    grid_compose (L := test_library) var_info 5
      ["a"; "b"; "c"; "d"; "e"; "f"]%string = Ok layout /\
    PIL.width layout = xres var_info /\
    PIL.height layout = yres var_info /\
    PIL.getpixel layout 50 50 = (0, 0, 0).
Proof.
  cbv zeta. eexists. split; [reflexivity|].
  apply (grid_margins_stay_black test_library
           (screen 1920 1080 32 (0, 8, 0)) 5
           ["a"; "b"; "c"; "d"; "e"; "f"]%string _ 50 50).
  - intros im size. split; reflexivity.
  - intros w h img size. simpl.
    destruct ((PIL.width img =? 0) || (PIL.height img =? 0));
      [discriminate|].
    intros E. injection E as <-. simpl. lia.
  - reflexivity.
  - intros i Hi [Hx _]. revert Hx. simpl in Hi.
    unfold cell_origin. 
    change (horizontal_margin (screen 1920 1080 32 (0, 8, 0)) 5) with 96.
    change (available_width (screen 1920 1080 32 (0, 8, 0)) 5) with 512.
    assert (0 <= i mod 3) by divlia. nia.
Defined.

(** ** Whole runs of the scripts *)

Lemma length_zrange n : length (PIL.zrange n) = Z.to_nat n.
Proof. unfold PIL.zrange. now rewrite length_map, length_seq. Qed.

Lemma to_raster_shape im :
  has_shape (PIL.to_raster im)
    (Z.to_nat (PIL.width im)) (Z.to_nat (PIL.height im)).
Proof.
  unfold has_shape, PIL.to_raster. split.
  - now rewrite length_map, length_zrange.
  - apply Forall_forall. intros row Hrow.
    apply in_map_iff in Hrow. destruct Hrow as (y & <- & _).
    now rewrite length_map, length_zrange.
Qed.

Lemma stdout_write_frame image_bytes w :
  stdout (snd (write_frame image_bytes w)) = stdout w.
Proof. rewrite write_frame_unfold. reflexivity. Qed.

Lemma stdout_encode_and_write var_info frame w :
  stdout (snd (encode_and_write var_info frame w)) = stdout w.
Proof.
  unfold encode_and_write, bindM, lift.
  destruct (encode var_info frame) as [image_bytes|e]; [|reflexivity].
  apply stdout_write_frame.
Qed.

Lemma write_frame_accepting image_bytes w :
  os_replies w = [] ->
  image_bytes <> [] ->
  write_frame image_bytes w
  = (Ok tt, {| ioctl_var := ioctl_var w; ioctl_fix := ioctl_fix w;
               os_replies := []; syscalls := syscalls w ++ [(0, image_bytes)];
               stdout := stdout w |}).
Proof.
  intros Hos Hne. unfold write_frame. rewrite Hos.
  destruct image_bytes as [|b image_bytes]; [contradiction|]. reflexivity.
Qed.

Lemma encode_and_write_accepting var_info im w :
  os_replies w = [] ->
  0 < PIL.width im -> 0 < PIL.height im ->
  exists image_bytes,
    encode var_info (PIL.to_raster im) = Ok image_bytes /\
    Z.of_nat (length image_bytes)
    = Z.of_nat (pixel_size var_info) * PIL.width im * PIL.height im /\
    encode_and_write var_info (PIL.to_raster im) w
    = (Ok tt, {| ioctl_var := ioctl_var w; ioctl_fix := ioctl_fix w;
                 os_replies := [];
                 syscalls := syscalls w ++ [(0, image_bytes)];
                 stdout := stdout w |}).
Proof.
  intros Hos Hw Hh.
  pose proof (encode_pixel_bytes var_info (PIL.to_raster im)) as He.
  pose proof (length_encoded var_info (PIL.to_raster im) _ _
                (to_raster_shape im)) as Hlen.
  set (image_bytes := flat_map (pixel_bytes var_info)
                        (pixels (PIL.to_raster im))) in *.
  assert (Hsize : (0 < pixel_size var_info)%nat).
  { unfold pixel_size. destruct (bits_per_pixel var_info =? 32); [lia|].
    destruct (bits_per_pixel var_info =? 16); lia. }
  exists image_bytes. split; [exact He|]. split.
  - rewrite Hlen. rewrite !Nat2Z.inj_mul, !Z2Nat.id by lia. lia.
  - unfold encode_and_write, bindM, lift. rewrite He.
    apply write_frame_accepting; [assumption|].
    intros ->. simpl in Hlen.
    assert (0 < Z.to_nat (PIL.width im) * Z.to_nat (PIL.height im))%nat
      by (apply Nat.mul_pos_pos; lia).
    nia.
Qed.

(** X6: when the device answers both queries, the file opens and the
    system takes what it is offered, [display_image] stretches the image to
    the screen and sends one buffer of pixel_size * xres * yres bytes to
    offset 0; it prints nothing unless [debug] is set. *)
Theorem display_image_writes_frame (L : ImageLibrary) image_path fb_file debug
  w var_info fix_info image :
  resize_has_size L ->
  ioctl_var w = Ok var_info ->
  ioctl_fix w = Ok fix_info ->
  Image_open image_path = Ok image ->
  os_replies w = [] ->
  0 < xres var_info -> 0 < yres var_info ->
  exists image_bytes,
    encode var_info
      (PIL.to_raster (resize image (xres var_info, yres var_info)))
    = Ok image_bytes /\
    Z.of_nat (length image_bytes)
    = Z.of_nat (pixel_size var_info) * xres var_info * yres var_info /\
    fst (display_image image_path fb_file debug w) = Ok tt /\
    syscalls (snd (display_image image_path fb_file debug w))
    = syscalls w ++ [(0, image_bytes)] /\
    stdout (snd (display_image image_path fb_file debug w))
    = stdout w ++
      (if debug then [DebugInfo var_info fix_info;
                      Message ("Image displayed on " ++ fb_file)]
       else []).
Proof.
  intros Hsize Hvar Hfix Hopen Hos Hx Hy.
  destruct (Hsize image (xres var_info, yres var_info)) as [Ew Eh].
  simpl in Ew, Eh.
  set (resized := resize image (xres var_info, yres var_info)) in *.
  destruct debug.
  - set (w1 := snd (print (DebugInfo var_info fix_info) w)).
    destruct (encode_and_write_accepting var_info resized w1)
      as (image_bytes & He & Hlen & Hrun);
      [exact Hos|lia|lia|].
    exists image_bytes. split; [exact He|].
    split; [rewrite Hlen, Ew, Eh; reflexivity|].
    unfold display_image, try_except, bindM, get_var_info, get_fix_info, lift.
    rewrite Hvar, Hfix, Hopen.
    change (print (DebugInfo var_info fix_info) w) with (Ok tt, w1).
    cbv beta iota. rewrite Image_resize_positive by (simpl; lia).
    fold resized. rewrite Hrun. simpl.
    repeat split. rewrite <- app_assoc. reflexivity.
  - destruct (encode_and_write_accepting var_info resized w)
      as (image_bytes & He & Hlen & Hrun);
      [exact Hos|lia|lia|].
    exists image_bytes. split; [exact He|].
    split; [rewrite Hlen, Ew, Eh; reflexivity|].
    unfold display_image, try_except, bindM, get_var_info, get_fix_info, lift.
    rewrite Hvar, Hfix, Hopen. cbn [ret].
    rewrite Image_resize_positive by (simpl; lia).
    fold resized. rewrite Hrun. simpl.
    repeat split. now rewrite app_nil_r.
Qed.

Lemma display_image_writes_frame_witness :
  let var_info := screen 2 1 32 (0, 8, 0) in
  let w := world var_info [] in
  exists image_bytes,
    encode var_info
      (PIL.to_raster
         (resize (ImageLibrary := test_library) test_image
            (xres var_info, yres var_info)))
    = Ok image_bytes /\
    Z.of_nat (length image_bytes)
    = Z.of_nat (pixel_size var_info) * xres var_info * yres var_info /\
    fst (display_image (L := test_library) "a" "/dev/fb0" false w) = Ok tt /\
    syscalls (snd (display_image (L := test_library) "a" "/dev/fb0" false w))
    = syscalls w ++ [(0, image_bytes)] /\
    stdout (snd (display_image (L := test_library) "a" "/dev/fb0" false w))
    = stdout w ++
      (if false then [DebugInfo var_info test_fix_info;
                      Message ("Image displayed on " ++ "/dev/fb0")]
       else []).
Proof.
  apply (display_image_writes_frame test_library "a" "/dev/fb0" false
           (world (screen 2 1 32 (0, 8, 0)) [])
           (screen 2 1 32 (0, 8, 0)) test_fix_info test_image).
  - intros im size. split; reflexivity.
  - reflexivity.
  - reflexivity.
  - reflexivity.
  - reflexivity.
  - simpl. lia.
  - simpl. lia.
Defined.

(** X7: when a query of the device or the opening of the file fails,
    [display_image] returns normally, the device receives nothing, and the
    error is printed (with a traceback under [debug]); the success message
    is not. *)
Theorem display_image_error_writes_nothing (L : ImageLibrary) image_path
  fb_file debug w e :
  ioctl_var w = Raise e \/
  (exists var_info, ioctl_var w = Ok var_info /\ ioctl_fix w = Raise e) \/
  (exists var_info fix_info,
     ioctl_var w = Ok var_info /\ ioctl_fix w = Ok fix_info /\
     Image_open image_path = Raise e) ->
  fst (display_image image_path fb_file debug w) = Ok tt /\
  syscalls (snd (display_image image_path fb_file debug w)) = syscalls w /\
  exists shown,
    stdout (snd (display_image image_path fb_file debug w))
    = stdout w ++ shown ++ ErrorMessage e
                 :: (if debug then [Traceback e] else []) /\
    (shown = [] \/
     exists var_info fix_info, shown = [DebugInfo var_info fix_info]).
Proof.
  intros [Hvar|[(var_info & Hvar & Hfix)
               |(var_info & fix_info & Hvar & Hfix & Hopen)]];
    unfold display_image, try_except, bindM, get_var_info, get_fix_info, lift;
    rewrite ?Hvar, ?Hfix, ?Hopen.
  - destruct debug; simpl; repeat split; exists [];
      (split; [rewrite <- ?app_assoc; reflexivity|auto]).
  - destruct debug; simpl; repeat split; exists [];
      (split; [rewrite <- ?app_assoc; reflexivity|auto]).
  - destruct debug; simpl; repeat split.
    + exists [DebugInfo var_info fix_info]. split.
      * rewrite <- !app_assoc. reflexivity.
      * right. eauto.
    + exists []. split; auto.
Qed.

Lemma display_image_error_writes_nothing_witness :
  let w :=
    {| ioctl_var := Raise (OSError 25); ioctl_fix := Raise (OSError 25);
       os_replies := []; syscalls := []; stdout := [] |} in
  fst (display_image (L := test_library) "a" "/dev/null" true w) = Ok tt /\
  syscalls (snd (display_image (L := test_library) "a" "/dev/null" true w))
  = syscalls w /\
  exists shown,
    stdout (snd (display_image (L := test_library) "a" "/dev/null" true w))
    = stdout w ++ shown ++ ErrorMessage (OSError 25)
                 :: (if true then [Traceback (OSError 25)] else []) /\
    (shown = [] \/
     exists var_info fix_info, shown = [DebugInfo var_info fix_info]).
Proof.
  apply (display_image_error_writes_nothing test_library "a" "/dev/null" true
           {| ioctl_var := Raise (OSError 25); ioctl_fix := Raise (OSError 25);
              os_replies := []; syscalls := []; stdout := [] |} (OSError 25)).
  left. reflexivity.
Defined.

(** X9: a source image of width 0 makes [display_dual_images] stop with
    ZeroDivisionError before anything is written. *)
Theorem display_dual_images_zero_width (L : ImageLibrary) image_path fb_file
  w var_info fix_info image :
  ioctl_var w = Ok var_info ->
  ioctl_fix w = Ok fix_info ->
  Image_open image_path = Ok image ->
  PIL.width image = 0 ->
  display_dual_images image_path fb_file w
  = print (ErrorMessage ZeroDivisionError) w /\
  syscalls (snd (display_dual_images image_path fb_file w)) = syscalls w.
Proof.
  intros Hvar Hfix Hopen Hw.
  assert (Hrun : display_dual_images image_path fb_file w
                 = print (ErrorMessage ZeroDivisionError) w).
  { unfold display_dual_images, try_except, bindM, get_var_info,
      get_fix_info, lift.
    rewrite Hvar, Hfix, Hopen.
    unfold dual_compose, new_height, int_truediv. rewrite Hw. reflexivity. }
  rewrite Hrun. split; reflexivity.
Qed.

Lemma display_dual_images_zero_width_witness :
  let flat := {| PIL.width := 0; PIL.height := 5;
                 PIL.getpixel := fun _ _ => (0, 0, 0) |} in
  let lib := {| Image_open := fun _ => Ok flat; resize := nearest;
                fit_size := fun w h _ => Ok (w, h) |} in
  let w := world (screen 1280 720 32 (0, 8, 0)) [] in
  display_dual_images (L := lib) "a" "/dev/fb0" w
  = print (ErrorMessage ZeroDivisionError) w /\
  syscalls (snd (display_dual_images (L := lib) "a" "/dev/fb0" w)) = syscalls w.
Proof.
  apply (display_dual_images_zero_width
           {| Image_open := fun _ =>
                Ok {| PIL.width := 0; PIL.height := 5;
                      PIL.getpixel := fun _ _ => (0, 0, 0) |};
              resize := nearest; fit_size := fun w h _ => Ok (w, h) |}
           "a" "/dev/fb0" (world (screen 1280 720 32 (0, 8, 0)) [])
           (screen 1280 720 32 (0, 8, 0)) test_fix_info
           {| PIL.width := 0; PIL.height := 5;
              PIL.getpixel := fun _ _ => (0, 0, 0) |});
    reflexivity.
Defined.

(** X10: when the device answers, the file opens, the screen is at least 2
    pixels wide, the new height comes out at least 1 and the system takes
    what it is offered, [display_dual_images] sends one buffer of
    pixel_size * xres * yres bytes to offset 0, also for a copy taller than
    the screen, and prints its message. *)
Theorem display_dual_images_writes_frame (L : ImageLibrary) image_path fb_file
  w var_info fix_info image nh :
  ioctl_var w = Ok var_info ->
  ioctl_fix w = Ok fix_info ->
  Image_open image_path = Ok image ->
  new_height var_info image = Ok nh ->
  0 < nh ->
  os_replies w = [] ->
  2 <= xres var_info -> 0 < yres var_info ->
  exists image_bytes,
    Z.of_nat (length image_bytes)
    = Z.of_nat (pixel_size var_info) * xres var_info * yres var_info /\
    fst (display_dual_images image_path fb_file w) = Ok tt /\
    syscalls (snd (display_dual_images image_path fb_file w))
    = syscalls w ++ [(0, image_bytes)] /\
    stdout (snd (display_dual_images image_path fb_file w))
    = stdout w ++ [Message ("Dual images displayed on " ++ fb_file)].
Proof.
  intros Hvar Hfix Hopen Hnh Hnh0 Hos Hx Hy.
  assert (Hnw : 0 < new_width var_info) by (unfold new_width; divlia).
  assert (Hc : exists combined,
             dual_compose var_info image = Ok combined /\
             PIL.width combined = xres var_info /\
             PIL.height combined = yres var_info).
  { unfold dual_compose. rewrite Hnh. cbn [bind].
    rewrite Image_resize_positive by assumption. cbn [bind].
    eexists. split; [reflexivity|]. split; reflexivity. }
  destruct Hc as (combined & Hc & Ew & Eh).
  destruct (encode_and_write_accepting var_info combined w)
    as (image_bytes & He & Hlen & Hrun); [exact Hos|lia|lia|].
  exists image_bytes. split; [rewrite Hlen, Ew, Eh; reflexivity|].
  unfold display_dual_images, try_except, bindM, get_var_info, get_fix_info,
    lift.
  rewrite Hvar, Hfix, Hopen, Hc, Hrun. simpl. repeat split.
Qed.

Lemma display_dual_images_writes_frame_witness :
  let var_info := screen 4 2 16 (0, 5, 0) in
  let w := world var_info [] in
  exists image_bytes,
    Z.of_nat (length image_bytes)
    = Z.of_nat (pixel_size var_info) * xres var_info * yres var_info /\
    fst (display_dual_images (L := test_library) "a" "/dev/fb0" w) = Ok tt /\
    syscalls (snd (display_dual_images (L := test_library) "a" "/dev/fb0" w))
    = syscalls w ++ [(0, image_bytes)] /\
    stdout (snd (display_dual_images (L := test_library) "a" "/dev/fb0" w))
    = stdout w ++ [Message ("Dual images displayed on " ++ "/dev/fb0")].
Proof.
  apply (display_dual_images_writes_frame test_library "a" "/dev/fb0"
           (world (screen 4 2 16 (0, 5, 0)) [])
           (screen 4 2 16 (0, 5, 0)) test_fix_info test_image 1).
  - reflexivity.
  - reflexivity.
  - reflexivity.
  - vm_compute. reflexivity.
  - lia.
  - reflexivity.
  - simpl. lia.
  - simpl. lia.
Defined.

Lemma paste_images_fails (L : ImageLibrary) var_info margin_percent p e :
  Image_open p = Raise e ->
  forall image_paths i layout,
    In p image_paths ->
    exists e',
      paste_images var_info margin_percent i image_paths layout = Raise e'.
Proof.
  intros Hopen. induction image_paths as [|q qs IH]; intros i layout Hin.
  - contradiction.
  - cbn [paste_images].
    destruct (Image_open q) as [img|e'] eqn:Hq; [|eexists; reflexivity].
    cbn [bind].
    destruct (fit_size _ _ img) as [new_size|e']; [|eexists; reflexivity].
    cbn [bind].
    destruct (Image_resize img new_size) as [resized|e'];
      [|eexists; reflexivity].
    cbn [bind]. apply IH.
    destruct Hin as [->|Hin]; [congruence|exact Hin].
Qed.

(** X11: [display_six_images] writes only once every image has been
    loaded and placed: if any of the files fails to open, the device
    receives nothing and one error line is printed. *)
Theorem display_six_images_needs_every_image (L : ImageLibrary) image_paths
  fb_file margin_percent w p e :
  In p image_paths ->
  Image_open p = Raise e ->
  fst (display_six_images image_paths fb_file margin_percent w) = Ok tt /\
  syscalls (snd (display_six_images image_paths fb_file margin_percent w))
  = syscalls w /\
  exists e',
    stdout (snd (display_six_images image_paths fb_file margin_percent w))
    = stdout w ++ [ErrorMessage e'].
Proof.
  intros Hin Hopen.
  unfold display_six_images, display_six_images_body, try_except.
  destruct (negb (length image_paths =? 6)%nat).
  - simpl. repeat split. eauto.
  - unfold bindM, get_var_info, get_fix_info, lift.
    destruct (ioctl_var w) as [var_info|e1]; [|simpl; repeat split; eauto].
    destruct (ioctl_fix w) as [fix_info|e1]; [|simpl; repeat split; eauto].
    unfold grid_compose.
    destruct (int_truediv (xres var_info * margin_percent) 100);
      [|simpl; repeat split; eauto].
    destruct (int_truediv (yres var_info * margin_percent) 100);
      [|simpl; repeat split; eauto].
    cbn [bind].
    destruct (paste_images_fails L var_info margin_percent p e Hopen
                image_paths 0
                (PIL.new (xres var_info, yres var_info) PIL.black) Hin)
      as [e' He'].
    rewrite He'. simpl. repeat split. eauto.
Qed.

Lemma display_six_images_needs_every_image_witness :
  let lib := {| Image_open := fun p =>
                  if String.eqb p "missing" then Raise (OSError 2)
                  else Ok test_image;
                resize := nearest; fit_size := fun w h _ => Ok (w, h) |} in
  let paths := ["a"; "b"; "c"; "d"; "e"; "missing"]%string in
  let w := world (screen 1920 1080 32 (0, 8, 0)) [] in
  fst (display_six_images (L := lib) paths "/dev/fb0" 5 w) = Ok tt /\
  syscalls (snd (display_six_images (L := lib) paths "/dev/fb0" 5 w))
  = syscalls w /\
  exists e',
    stdout (snd (display_six_images (L := lib) paths "/dev/fb0" 5 w))
    = stdout w ++ [ErrorMessage e'].
Proof.
  apply (display_six_images_needs_every_image
           {| Image_open := fun p =>
                if String.eqb p "missing" then Raise (OSError 2)
                else Ok test_image;
              resize := nearest; fit_size := fun w h _ => Ok (w, h) |}
           ["a"; "b"; "c"; "d"; "e"; "missing"]%string "/dev/fb0" 5
           (world (screen 1920 1080 32 (0, 8, 0)) [])
           "missing"%string (OSError 2)).
  - simpl. tauto.
  - reflexivity.
Defined.

(** X12: on a screen of odd width the two halves leave the last column
    uncovered: it is black on every row. *)
Theorem dual_odd_width_last_column (L : ImageLibrary) var_info image
  combined y :
  resize_has_size L ->
  dual_compose var_info image = Ok combined ->
  0 <= xres var_info ->
  Z.odd (xres var_info) = true ->
  PIL.getpixel combined (xres var_info - 1) y = (0, 0, 0).
Proof.
  intros Hsize Hc Hx Hodd. unfold dual_compose in Hc.
  destruct (new_height var_info image) as [nh|e]; [|discriminate Hc].
  cbn [bind] in Hc.
  destruct (Image_resize image (new_width var_info, nh)) as [resized|e]
    eqn:Hres; [|discriminate Hc].
  apply Image_resize_ok in Hres. subst resized.
  cbn [bind] in Hc. injection Hc as <-.
  destruct (Hsize image (new_width var_info, nh)) as [Hrw Hrh].
  simpl in Hrw, Hrh.
  assert (Hlast : xres var_info - 1 = 2 * new_width var_info).
  { unfold new_width. rewrite (Zodd_div2 (xres var_info)) at 1.
    - rewrite Z.div2_div. lia.
    - apply Zodd_bool_iff. exact Hodd. }
  cbn [PIL.paste PIL.getpixel].
  assert (C1 : PIL.covers (resize image (new_width var_info, nh))
                 (new_width var_info, 0) (xres var_info - 1) y = false).
  { apply not_true_is_false. rewrite covers_spec, Hrw, Hrh. simpl. lia. }
  assert (C2 : PIL.covers (resize image (new_width var_info, nh))
                 (0, 0) (xres var_info - 1) y = false).
  { apply not_true_is_false. rewrite covers_spec, Hrw, Hrh. simpl.
    assert (0 <= new_width var_info)
      by (unfold new_width; apply Z.div_pos; lia).
    lia. }
  rewrite C1, C2. reflexivity.
Qed.

Lemma dual_odd_width_last_column_witness :
  PIL.getpixel
    (PIL.paste
       (PIL.paste (PIL.new (1281, 720) PIL.default_color)
          (nearest test_image (640, 480)) (0, 0))
       (nearest test_image (640, 480)) (640, 0)) (1281 - 1) 10 = (0, 0, 0).
Proof.
  apply (dual_odd_width_last_column test_library
           (screen 1281 720 32 (0, 8, 0)) test_image
           (PIL.paste
              (PIL.paste (PIL.new (1281, 720) PIL.default_color)
                 (nearest test_image (640, 480)) (0, 0))
              (nearest test_image (640, 480)) (640, 0)) 10).
  - intros im size. split; reflexivity.
  - reflexivity.
  - simpl. lia.
  - reflexivity.
Defined.

Lemma in_zrange v n : In v (PIL.zrange n) -> 0 <= v < n.
Proof.
  unfold PIL.zrange. intros Hin. apply in_map_iff in Hin.
  destruct Hin as (k & <- & Hk). apply in_seq in Hk. lia.
Qed.

Lemma to_raster_paste_off_screen canvas src x y :
  PIL.width canvas <= x \/ PIL.height canvas <= y \/
  x + PIL.width src <= 0 \/ y + PIL.height src <= 0 ->
  PIL.to_raster (PIL.paste canvas src (x, y)) = PIL.to_raster canvas.
Proof.
  intros Hoff. unfold PIL.to_raster. cbn [PIL.paste PIL.width PIL.height].
  apply map_ext_in. intros py Hpy. apply in_zrange in Hpy.
  apply map_ext_in. intros px Hpx. apply in_zrange in Hpx.
  cbn [PIL.getpixel].
  assert (C : PIL.covers src (x, y) px py = false).
  { apply not_true_is_false. rewrite covers_spec. simpl. lia. }
  unfold PIL.paste. cbn [PIL.getpixel]. rewrite C. reflexivity.
Qed.

(** X13: a frame of the animation has the size of the canvas wherever the
    anchor lies, also off the screen or at negative coordinates, so every
    frame is one buffer of pixel_size * width * height bytes at offset 0;
    with the sprite wholly off the screen the frame is the canvas. *)
Theorem animate_frame_keeps_size var_info canvas img_resized x y w :
  os_replies w = [] ->
  0 < PIL.width canvas -> 0 < PIL.height canvas ->
  exists image_bytes,
    Z.of_nat (length image_bytes)
    = Z.of_nat (pixel_size var_info) * PIL.width canvas * PIL.height canvas /\
    fst (animate_frame var_info canvas img_resized x y w) = Ok tt /\
    syscalls (snd (animate_frame var_info canvas img_resized x y w))
    = syscalls w ++ [(0, image_bytes)] /\
    (PIL.width canvas <= x \/ PIL.height canvas <= y \/
     x + PIL.width img_resized <= 0 \/ y + PIL.height img_resized <= 0 ->
     encode var_info (PIL.to_raster canvas) = Ok image_bytes).
Proof.
  intros Hos Hw Hh. unfold animate_frame.
  destruct (encode_and_write_accepting var_info
              (PIL.paste canvas img_resized (x, y)) w)
    as (image_bytes & He & Hlen & Hrun); [exact Hos|exact Hw|exact Hh|].
  exists image_bytes. split; [exact Hlen|]. rewrite Hrun.
  split; [reflexivity|]. split; [reflexivity|].
  intros Hoff. rewrite <- He.
  now rewrite to_raster_paste_off_screen.
Qed.

Lemma animate_frame_keeps_size_witness :
  let var_info := screen 4 2 32 (0, 8, 0) in
  let canvas := PIL.new (4, 2) PIL.black in
  let w := world var_info [] in
  exists image_bytes,
    Z.of_nat (length image_bytes)
    = Z.of_nat (pixel_size var_info) * PIL.width canvas * PIL.height canvas /\
    fst (animate_frame var_info canvas test_image (-700) 1 w) = Ok tt /\
    syscalls (snd (animate_frame var_info canvas test_image (-700) 1 w))
    = syscalls w ++ [(0, image_bytes)] /\
    (PIL.width canvas <= -700 \/ PIL.height canvas <= 1 \/
     -700 + PIL.width test_image <= 0 \/ 1 + PIL.height test_image <= 0 ->
     encode var_info (PIL.to_raster canvas) = Ok image_bytes).
Proof.
  apply (animate_frame_keeps_size (screen 4 2 32 (0, 8, 0))
           (PIL.new (4, 2) PIL.black) test_image (-700) 1
           (world (screen 4 2 32 (0, 8, 0)) [])).
  - reflexivity.
  - simpl. lia.
  - simpl. lia.
Defined.

(** ** The calls of one write *)

Lemma write_all_offsets replies :
  forall pos buf,
    Forall (fun call : Z * list Z =>
              exists k, (k < length buf)%nat /\
                        fst call = pos + Z.of_nat k /\
                        snd call = skipn k buf)
           (snd (write_all replies pos buf)).
Proof.
  induction replies as [|[n|errno] replies IH]; intros pos buf;
    destruct buf as [|b buf]; cbn [write_all snd];
    try (constructor; fail).
  - constructor; [|constructor]. exists 0%nat. cbn [length skipn fst snd].
    repeat split; lia.
  - set (n' := Nat.min n (length (b :: buf))).
    specialize (IH (pos + Z.of_nat n') (skipn n' (b :: buf))).
    destruct (write_all replies (pos + Z.of_nat n') (skipn n' (b :: buf)))
      as [[r rest] calls].
    cbn [snd] in IH |- *. constructor.
    + exists 0%nat. cbn [length skipn fst snd]. repeat split; lia.
    + eapply Forall_impl; [|exact IH].
      intros [o d] (k & Hk & Ho & Hd). cbn [fst snd] in *.
      rewrite length_skipn in Hk.
      exists (n' + k)%nat. repeat split.
      * lia.
      * lia.
      * rewrite Hd, skipn_skipn. f_equal. lia.
  - destruct (errno =? EINTR).
    + specialize (IH pos (b :: buf)).
      destruct (write_all replies pos (b :: buf)) as [[r rest] calls].
      cbn [snd] in IH |- *. constructor; [|exact IH].
      exists 0%nat. cbn [length skipn fst snd]. repeat split; lia.
    + cbn [snd]. constructor; [|constructor]. exists 0%nat.
      cbn [length skipn fst snd]. repeat split; lia.
Qed.

(** X14: whatever the system answers, every call of a frame write offers
    the bytes of the buffer not yet taken, at the offset that equals the
    number of bytes before them: the device is never offered bytes at
    another offset than their place in the frame. *)
Theorem write_frame_offsets image_bytes w :
  exists calls,
    syscalls (snd (write_frame image_bytes w)) = syscalls w ++ calls /\
    Forall (fun call : Z * list Z =>
              exists k, (k < length image_bytes)%nat /\
                        fst call = Z.of_nat k /\
                        snd call = skipn k image_bytes)
           calls.
Proof.
  rewrite write_frame_unfold. cbn [snd syscalls].
  eexists. split; [reflexivity|].
  apply (write_all_offsets (os_replies w) 0 image_bytes).
Qed.

Lemma paste_images_succeeds (L : ImageLibrary) var_info margin_percent :
  forall image_paths i layout,
    (forall p, In p image_paths ->
       exists img new_size,
         Image_open p = Ok img /\
         fit_size (available_width var_info margin_percent)
                  (available_height var_info margin_percent) img
         = Ok new_size /\
         0 < fst new_size /\ 0 < snd new_size) ->
    exists layout',
      paste_images var_info margin_percent i image_paths layout = Ok layout' /\
      PIL.width layout' = PIL.width layout /\
      PIL.height layout' = PIL.height layout.
Proof.
  induction image_paths as [|p ps IH]; intros i layout Hall.
  - exists layout. repeat split.
  - cbn [paste_images].
    destruct (Hall p (or_introl eq_refl))
      as (img & new_size & Ho & Hf & Hw & Hh).
    rewrite Ho. cbn [bind]. rewrite Hf. cbn [bind].
    rewrite Image_resize_positive by assumption. cbn [bind].
    destruct (IH (i + 1)
                (PIL.paste layout (resize img new_size)
                   (paste_offset var_info margin_percent i new_size)))
      as (layout' & Hrun & Ew & Eh).
    + intros q Hq. apply Hall. right. exact Hq.
    + exists layout'. split; [exact Hrun|]. split; assumption.
Qed.

(** X15: with six files that open and whose scaled size has positive
    sides, margins whose products with the resolution stay below 2^53, a
    device that answers and a system that takes what it is offered,
    [display_six_images] sends one buffer of pixel_size * xres * yres bytes
    to offset 0 and prints its message. *)
Theorem display_six_images_writes_frame (L : ImageLibrary) image_paths fb_file
  margin_percent w var_info fix_info :
  length image_paths = 6%nat ->
  ioctl_var w = Ok var_info ->
  ioctl_fix w = Ok fix_info ->
  Z.abs (xres var_info * margin_percent) < 2 ^ 53 ->
  Z.abs (yres var_info * margin_percent) < 2 ^ 53 ->
  (forall p, In p image_paths ->
     exists img new_size,
       Image_open p = Ok img /\
       fit_size (available_width var_info margin_percent)
                (available_height var_info margin_percent) img
       = Ok new_size /\
       0 < fst new_size /\ 0 < snd new_size) ->
  os_replies w = [] ->
  0 < xres var_info -> 0 < yres var_info ->
  exists image_bytes,
    Z.of_nat (length image_bytes)
    = Z.of_nat (pixel_size var_info) * xres var_info * yres var_info /\
    fst (display_six_images image_paths fb_file margin_percent w) = Ok tt /\
    syscalls (snd (display_six_images image_paths fb_file margin_percent w))
    = syscalls w ++ [(0, image_bytes)] /\
    stdout (snd (display_six_images image_paths fb_file margin_percent w))
    = stdout w ++
      [Message ("Six images displayed in a 2x3 grid on " ++ fb_file)].
Proof.
  intros Hlen Hvar Hfix Hxm Hym Hall Hos Hx Hy.
  destruct (paste_images_succeeds L var_info margin_percent image_paths 0
              (PIL.new (xres var_info, yres var_info) PIL.black) Hall)
    as (layout & Hrun & Ew & Eh).
  simpl in Ew, Eh.
  destruct (encode_and_write_accepting var_info layout w)
    as (image_bytes & He & Hsz & Hwrite); [exact Hos|lia|lia|].
  exists image_bytes. split; [rewrite Hsz, Ew, Eh; reflexivity|].
  assert (H100 : 0 < 100 < 2 ^ 53) by (split; vm_compute; reflexivity).
  unfold display_six_images, display_six_images_body, try_except.
  rewrite Hlen. cbn [Nat.eqb negb].
  unfold bindM, get_var_info, get_fix_info, lift, grid_compose.
  rewrite Hvar, Hfix. rewrite !int_truediv_small by assumption.
  cbn [bind]. rewrite Hrun, Hwrite. simpl. repeat split.
Qed.

Lemma display_six_images_writes_frame_witness :
  let var_info := screen 40 20 16 (0, 5, 0) in
  let paths := ["a"; "b"; "c"; "d"; "e"; "f"]%string in
  let w := world var_info [] in
  exists image_bytes,
    Z.of_nat (length image_bytes)
    = Z.of_nat (pixel_size var_info) * xres var_info * yres var_info /\
    fst (display_six_images (L := test_library) paths "/dev/fb0" 5 w) = Ok tt /\
    syscalls (snd (display_six_images (L := test_library) paths "/dev/fb0" 5 w))
    = syscalls w ++ [(0, image_bytes)] /\
    stdout (snd (display_six_images (L := test_library) paths "/dev/fb0" 5 w))
    = stdout w ++
      [Message ("Six images displayed in a 2x3 grid on " ++ "/dev/fb0")].
Proof.
  apply (display_six_images_writes_frame test_library
           ["a"; "b"; "c"; "d"; "e"; "f"]%string "/dev/fb0" 5
           (world (screen 40 20 16 (0, 5, 0)) [])
           (screen 40 20 16 (0, 5, 0)) test_fix_info).
  - reflexivity.
  - reflexivity.
  - reflexivity.
  - vm_compute. reflexivity.
  - vm_compute. reflexivity.
  - intros p _. exists test_image. eexists.
    split; [reflexivity|]. split; [reflexivity|].
    split; vm_compute; reflexivity.
  - reflexivity.
  - simpl. lia.
  - simpl. lia.
Defined.

(** ** The anchor of the orbit *)

Example angular_speed_value :
  Double.exactly angular_speed 176855943800711 47.
Proof. vm_compute. reflexivity. Qed.

Lemma exactly_quarter : Double.exactly quarter 1 2.
Proof. reflexivity. Qed.

Lemma exactly_half z :
  Z.abs z < 2 ^ 53 -> Double.exactly (Double.round_ratio z 2) (z * 2 ^ 1) (1 + 1).
Proof.
  intros Hz. apply DoubleFacts.exactly_scale; [lia|lia|].
  unfold Double.exactly.
  apply DoubleFacts.round_ratio_exact; [lia|lia|assumption|].
  change (2 ^ 1) with 2. lia.
Qed.

(** The coordinate [int(c + radius * trig - size / 2)] where the value of
    the trigonometric function is the integer [v]: nothing is rounded, and
    the sum is truncated. *)
Lemma coordinate_exact c m size trig v :
  0 <= c < 2 ^ 32 -> 0 <= m < 2 ^ 32 -> 0 <= size < 2 ^ 32 ->
  -1 <= v <= 1 ->
  Double.exactly trig v 0 ->
  Double.to_int
    (Double.sub
       (Double.add (Double.of_int c)
          (Double.mul (Double.mul (Double.of_int m) quarter) trig))
       (Double.round_ratio size 2))
  = Z.quot (4 * c + m * v - 2 * size) 4.
Proof.
  intros Hc Hm Hs Hv Htrig.
  assert (H32 : 2 ^ 32 * 8 < 2 ^ 53) by (vm_compute; reflexivity).
  assert (Hradius : Double.exactly (Double.mul (Double.of_int m) quarter)
                      (m * 1) (0 + 2)).
  { apply DoubleFacts.exactly_mul; try lia.
    - apply DoubleFacts.exactly_of_int. lia.
    - exact exactly_quarter. }
  assert (Hprod : Double.exactly
                    (Double.mul (Double.mul (Double.of_int m) quarter) trig)
                    (m * 1 * v) (0 + 2 + 0)).
  { apply DoubleFacts.exactly_mul; try lia; try assumption. nia. }
  assert (Hcentre : Double.exactly (Double.of_int c) (c * 2 ^ 2) (0 + 2)).
  { apply DoubleFacts.exactly_scale; [lia|lia|].
    apply DoubleFacts.exactly_of_int. lia. }
  assert (Hhalf : Double.exactly (Double.round_ratio size 2)
                    (size * 2 ^ 1) (1 + 1))
    by (apply exactly_half; lia).
  change (0 + 2 + 0) with 2 in Hprod. change (0 + 2) with 2 in Hcentre.
  change (1 + 1) with 2 in Hhalf.
  change (2 ^ 2) with 4 in Hcentre. change (2 ^ 1) with 2 in Hhalf.
  assert (Hsum : Double.exactly
                   (Double.add (Double.of_int c)
                      (Double.mul (Double.mul (Double.of_int m) quarter) trig))
                   (c * 4 + m * 1 * v) 2).
  { apply DoubleFacts.exactly_add; try assumption; [lia|nia]. }
  assert (Hdiff : Double.exactly
                    (Double.sub
                       (Double.add (Double.of_int c)
                          (Double.mul (Double.mul (Double.of_int m) quarter)
                             trig))
                       (Double.round_ratio size 2))
                    (c * 4 + m * 1 * v - size * 2) 2).
  { apply DoubleFacts.exactly_sub; try assumption; [lia|nia]. }
  rewrite (DoubleFacts.to_int_exactly _ _ 2 ltac:(lia) Hdiff).
  change (2 ^ 2) with 4. f_equal. ring.
Qed.

(** C8, as stated, fails: the anchor is truncated to an integer (a sprite
    727 wide on 1920x1080 gives 866 where the spec's value is 866.5), and
    the centre is taken by floor division (a screen 1921 wide gives 870
    where the spec's value is 870.5). *)
Lemma anchor_is_truncated :
  anchor (screen 1920 1080 32 (0, 8, 0)) (727, 409) Double.one Double.zero
  = (866, 335) /\
  anchor_at_start_in_words_x4 (screen 1920 1080 32 (0, 8, 0)) (727, 409)
  = (4 * 866 + 2, 4 * 335 + 2) /\
  anchor (screen 1921 1080 32 (0, 8, 0)) (720, 540) Double.one Double.zero
  = (870, 270) /\
  anchor_at_start_in_words_x4 (screen 1921 1080 32 (0, 8, 0)) (720, 540)
  = (4 * 870 + 2, 4 * 270).
Proof. vm_compute. repeat split. Qed.

(** C8, amended: for a screen and a sprite with sides below 2^32 the
    radius is exactly 0.25 * min(width, height); the anchor at elapsed time
    t is the sum center_x + radius * cos(t * angular_speed) - w/2, computed
    in doubles and truncated toward zero by int, and likewise for y with
    the sine, where center = (width // 2, height // 2) by floor division;
    wherever the cosine and the sine come out as whole numbers u and v the
    anchor is (center_x + radius * u - w/2, center_y + radius * v - h/2)
    truncated toward zero, nothing being rounded on the way; at t = 0,
    where the cosine is 1 and the sine 0, the anchor is
    (center_x + radius - w/2, center_y - h/2) truncated toward zero. *)
Theorem orbit_anchor (M : Libm) var_info new_size :
  0 <= xres var_info < 2 ^ 32 -> 0 <= yres var_info < 2 ^ 32 ->
  0 <= fst new_size < 2 ^ 32 -> 0 <= snd new_size < 2 ^ 32 ->
  Double.exactly (cos Double.zero) 1 0 ->
  Double.exactly (sin Double.zero) 0 0 ->
  let center_x := xres var_info / 2 in
  let center_y := yres var_info / 2 in
  let radius :=
    Double.mul (Double.of_int (Z.min (xres var_info) (yres var_info)))
               quarter in
  Double.exactly radius (Z.min (xres var_info) (yres var_info)) 2 /\
  (forall t,
     animate_anchor M var_info new_size t
     = (Double.to_int
          (Double.sub
             (Double.add (Double.of_int center_x)
                (Double.mul radius (cos (Double.mul t angular_speed))))
             (Double.round_ratio (fst new_size) 2)),
        Double.to_int
          (Double.sub
             (Double.add (Double.of_int center_y)
                (Double.mul radius (sin (Double.mul t angular_speed))))
             (Double.round_ratio (snd new_size) 2)))) /\
  (forall t u v,
     -1 <= u <= 1 -> -1 <= v <= 1 ->
     Double.exactly (cos (Double.mul t angular_speed)) u 0 ->
     Double.exactly (sin (Double.mul t angular_speed)) v 0 ->
     animate_anchor M var_info new_size t
     = (Z.quot (4 * center_x + Z.min (xres var_info) (yres var_info) * u
                - 2 * fst new_size) 4,
        Z.quot (4 * center_y + Z.min (xres var_info) (yres var_info) * v
                - 2 * snd new_size) 4)) /\
  animate_anchor M var_info new_size Double.zero
  = (Z.quot (4 * center_x + Z.min (xres var_info) (yres var_info)
             - 2 * fst new_size) 4,
     Z.quot (2 * center_y - snd new_size) 2).
Proof.
  intros Hx Hy Hw Hh Hcos Hsin center_x center_y radius.
  assert (Hcx : 0 <= center_x < 2 ^ 32) by (unfold center_x; divlia).
  assert (Hcy : 0 <= center_y < 2 ^ 32) by (unfold center_y; divlia).
  assert (Hmin : 0 <= Z.min (xres var_info) (yres var_info) < 2 ^ 32) by lia.
  assert (H32 : 2 ^ 32 < 2 ^ 53) by (vm_compute; reflexivity).
  split; [|split; [|split]].
  - assert (Hradius : Double.exactly radius
                        (Z.min (xres var_info) (yres var_info) * 1) (0 + 2)).
    { apply DoubleFacts.exactly_mul; try lia.
      - apply DoubleFacts.exactly_of_int. lia.
      - exact exactly_quarter. }
    rewrite Z.mul_1_r in Hradius. exact Hradius.
  - intros t. reflexivity.
  - intros t u v Hu Hv Hcos_t Hsin_t. unfold animate_anchor, anchor.
    fold center_x center_y.
    rewrite (coordinate_exact center_x _ (fst new_size) _ u)
      by (assumption || lia).
    rewrite (coordinate_exact center_y _ (snd new_size) _ v)
      by (assumption || lia).
    reflexivity.
  - unfold animate_anchor. rewrite DoubleFacts.mul_zero_l. unfold anchor.
    fold center_x center_y.
    rewrite (coordinate_exact center_x _ (fst new_size) _ 1)
      by (assumption || lia).
    rewrite (coordinate_exact center_y _ (snd new_size) _ 0)
      by (assumption || lia).
    f_equal.
    + f_equal. lia.
    + replace (4 * center_y
               + Z.min (xres var_info) (yres var_info) * 0
               - 2 * snd new_size)
        with (2 * (2 * center_y - snd new_size)) by lia.
      change 4 with (2 * 2) at 1.
      apply Z.quot_mul_cancel_l; lia.
Qed.

Lemma orbit_anchor_witness :
  let var_info := screen 1920 1080 32 (0, 8, 0) in
  let new_size := (727, 409) in
  let center_x := xres var_info / 2 in
  let center_y := yres var_info / 2 in
  let radius :=
    Double.mul (Double.of_int (Z.min (xres var_info) (yres var_info)))
               quarter in
  Double.exactly radius (Z.min (xres var_info) (yres var_info)) 2 /\
  (forall t,
     animate_anchor libm_at_zero var_info new_size t
     = (Double.to_int
          (Double.sub
             (Double.add (Double.of_int center_x)
                (Double.mul radius
                   (cos (Libm := libm_at_zero)
                      (Double.mul t angular_speed))))
             (Double.round_ratio (fst new_size) 2)),
        Double.to_int
          (Double.sub
             (Double.add (Double.of_int center_y)
                (Double.mul radius
                   (sin (Libm := libm_at_zero)
                      (Double.mul t angular_speed))))
             (Double.round_ratio (snd new_size) 2)))) /\
  (forall t u v,
     -1 <= u <= 1 -> -1 <= v <= 1 ->
     Double.exactly
       (cos (Libm := libm_at_zero) (Double.mul t angular_speed)) u 0 ->
     Double.exactly
       (sin (Libm := libm_at_zero) (Double.mul t angular_speed)) v 0 ->
     animate_anchor libm_at_zero var_info new_size t
     = (Z.quot (4 * center_x + Z.min (xres var_info) (yres var_info) * u
                - 2 * fst new_size) 4,
        Z.quot (4 * center_y + Z.min (xres var_info) (yres var_info) * v
                - 2 * snd new_size) 4)) /\
  animate_anchor libm_at_zero var_info new_size Double.zero
  = (Z.quot (4 * center_x + Z.min (xres var_info) (yres var_info)
             - 2 * fst new_size) 4,
     Z.quot (2 * center_y - snd new_size) 2).
Proof.
  apply (orbit_anchor libm_at_zero (screen 1920 1080 32 (0, 8, 0))
           (727, 409)).
  - split; vm_compute; [discriminate|reflexivity].
  - split; vm_compute; [discriminate|reflexivity].
  - split; vm_compute; [discriminate|reflexivity].
  - split; vm_compute; [discriminate|reflexivity].
  - reflexivity.
  - reflexivity.
Defined.
